(** * Canary network messages: NetworkMessage and OutputMessage

    A shallow embedding of
      src/server/network/message/networkmessage.hpp
      src/server/network/message/outputmessage.hpp
    and the properties of the read/write codec and of the backward-growing
    header writer.

    Conventions.
    - unsigned integers of the source are [Z] with the wrap-around written
      out ([to_MsgSize_t], [to_uint8_t], [to_size_t]);
    - a byte is a [Z] in [0, 256); the fixed array [buffer] is a [list Z]
      whose length is [buffer.size()];
    - a member function is a state transformer in the monad [M], which also
      collects what is sent to [g_logger()] and records an access outside
      an array ([Undefined]);
    - [std::bit_cast] between a value and its bytes follows the object
      representation of the build targets, which are little-endian. *)

From Stdlib Require Import ZArith Lia List.
From stdpp Require Import base list.
Import ListNotations.
Local Open Scope Z_scope.

(** ** Machine integers *)

Definition wrap (bits z : Z) : Z := z mod 2 ^ bits.

(** [using MsgSize_t = uint16_t] *)
Definition MsgSize_t : Type := Z.
Definition to_MsgSize_t (z : Z) : MsgSize_t := wrap 16 z.
Definition to_uint8_t (z : Z) : Z := wrap 8 z.
Definition to_uint16_t (z : Z) : Z := wrap 16 z.
Definition to_size_t (z : Z) : Z := wrap 64 z.

(** [static constexpr MsgSize_t INITIAL_BUFFER_POSITION = 7] *)
Definition INITIAL_BUFFER_POSITION : MsgSize_t := 7.

(** ** Object representations ([std::bit_cast]) *)

(** The [n] low-order bytes of [v], least significant first. *)
Fixpoint le_bytes (n : nat) (v : Z) : list Z :=
  match n with
  | O => []
  | S k => v mod 256 :: le_bytes k (v / 256)
  end.

(** The number whose little-endian digits are [bs]. *)
Fixpoint le_value (bs : list Z) : Z :=
  match bs with
  | [] => 0
  | b :: rest => b + 256 * le_value rest
  end.

(** A template argument [T] of [get<T>], [add<T>] and [add_header<T>]:
    its values, [sizeof(T)], [T()], and the two directions of
    [std::bit_cast] between [T] and [std::array<unsigned char, sizeof(T)>].
    [representable] tells which elements of the carrier are values of the
    C++ type. There is no descriptor for [double]: the static_assert of the
    source rejects it. *)
Record CType : Type := {
  carrier : Type;
  sizeof : Z;
  value_init : carrier;
  representable : carrier -> Prop;
  to_bytes : carrier -> list Z;
  of_bytes : list Z -> carrier
}.

(** [std::is_trivially_copyable_v<T>] for a fixed-width [T]: the object
    representation has [sizeof(T)] bytes, each an unsigned char, and
    determines the value. *)
Class TriviallyCopyable (T : CType) : Prop := {
  to_bytes_size : forall v : carrier T, Z.of_nat (length (to_bytes T v)) = sizeof T;
  of_to_bytes : forall v : carrier T, representable T v -> of_bytes T (to_bytes T v) = v
}.

Definition unsigned_type (n : nat) : CType := {|
  carrier := Z;
  sizeof := Z.of_nat n;
  value_init := 0;
  representable := fun v => 0 <= v < 256 ^ Z.of_nat n;
  to_bytes := le_bytes n;
  of_bytes := le_value
|}.

Definition signed_type (n : nat) : CType := {|
  carrier := Z;
  sizeof := Z.of_nat n;
  value_init := 0;
  representable := fun v => - (256 ^ Z.of_nat n) <= 2 * v < 256 ^ Z.of_nat n;
  to_bytes := fun v => le_bytes n (v mod 256 ^ Z.of_nat n);
  of_bytes := fun bs =>
    let u := le_value bs in
    if 2 * u <? 256 ^ Z.of_nat n then u else u - 256 ^ Z.of_nat n
|}.

Definition uint8_t : CType := unsigned_type 1.
Definition uint16_t : CType := unsigned_type 2.
Definition uint32_t : CType := unsigned_type 4.
Definition uint64_t : CType := unsigned_type 8.
Definition int8_t : CType := signed_type 1.
Definition int16_t : CType := signed_type 2.
Definition int32_t : CType := signed_type 4.
Definition int64_t : CType := signed_type 8.

(** ** Effects: state, the logger, undefined behaviour *)

(** The calls to [g_logger()] made by the two headers. *)
Inductive LogEntry : Type :=
| ErrorCannotAdd (size bufferSize : Z)
    (* "Cannot add value of size '{}', buffer size: '{}' overflow. ..." *)
| ErrorBufferOverflow (position size bufferSize : Z)
    (* "Buffer overflow detected, current position: '{}', value size: '{}', ..." *)
| ErrorSpanCopy (spanSize available : Z)
    (* "Buffer overflow during span copy. ..." *)
| TraceAdd
    (* "[{}] called at line '{}:{}' in '{}'" *)
| ErrorHeaderSpace.
    (* "[{}]: Insufficient buffer space for header!" *)

(** What a member function does to an object of type [S]: it returns [a],
    leaves the object as [s] and has logged [log]; or it has read or
    written outside an array. *)
Inductive Outcome (S A : Type) : Type :=
| Done (a : A) (s : S) (log : list LogEntry)
| Undefined.
Arguments Done {S A} a s log.
Arguments Undefined {S A}.

Definition M (S A : Type) : Type := S -> Outcome S A.

Definition ret {S A} (a : A) : M S A := fun s => Done a s [].

Definition bind {S A B} (c : M S A) (k : A -> M S B) : M S B :=
  fun s =>
    match c s with
    | Done a s1 log1 =>
        match k a s1 with
        | Done b s2 log2 => Done b s2 (log1 ++ log2)
        | Undefined => Undefined
        end
    | Undefined => Undefined
    end.

Definition gets {S A} (f : S -> A) : M S A := fun s => Done (f s) s [].
Definition modify {S} (f : S -> S) : M S unit := fun s => Done tt (f s) [].
Definition logger {S} (e : LogEntry) : M S unit := fun s => Done tt s [e].
Definition undefined {S A} : M S A := fun _ => Undefined.

(** Run [c] on a part of the state selected by [proj] and put the part
    back with [inj]: a method of a base class called on a derived object. *)
Definition zoom {S P A} (proj : S -> P) (inj : P -> S -> S) (c : M P A) : M S A :=
  fun s =>
    match c (proj s) with
    | Done a p log => Done a (inj p s) log
    | Undefined => Undefined
    end.

Notation "'let*' x ':=' c 'in' k" := (bind c (fun x => k))
  (at level 10, x name, c at level 100, k at level 200, only parsing).
Notation "c ';;' k" := (bind c (fun _ => k))
  (at level 100, k at level 200, right associativity, only parsing).

(** ** Spans over the byte array *)

(** [buffer.size()] *)
Definition size (buf : list Z) : Z := Z.of_nat (length buf).

(** Reading the span [data + pos, n]: the [n] bytes from offset [pos], when
    they lie inside the array. *)
Definition read_span (buf : list Z) (pos n : Z) : option (list Z) :=
  if (0 <=? pos) && (0 <=? n) && (pos + n <=? size buf)
  then Some (take (Z.to_nat n) (drop (Z.to_nat pos) buf))
  else None.

(** [std::ranges::copy(src, begin + pos)]: the bytes of [src] stored from
    offset [pos] on, when they fit inside the array. *)
Definition copy_span (src : list Z) (pos : Z) (buf : list Z) : option (list Z) :=
  if (0 <=? pos) && (pos + size src <=? size buf)
  then Some (list_inserts (Z.to_nat pos) src buf)
  else None.

(** ** NetworkMessage *)

(** [struct NetworkMessageInfo], with its default member initialisers. *)
Module NetworkMessageInfo.
Record t : Type := {
  length : MsgSize_t;
  position : MsgSize_t;
  overrun : bool
}.
Definition default : t := {|
  length := 0;
  position := INITIAL_BUFFER_POSITION;
  overrun := false
|}.
End NetworkMessageInfo.

(** The data members of [class NetworkMessage]. *)
Record NetworkMessage : Type := {
  info : NetworkMessageInfo.t;
  buffer : list Z
}.

Definition msg_length (m : NetworkMessage) : MsgSize_t := NetworkMessageInfo.length (info m).
Definition msg_position (m : NetworkMessage) : MsgSize_t := NetworkMessageInfo.position (info m).
Definition msg_overrun (m : NetworkMessage) : bool := NetworkMessageInfo.overrun (info m).

Definition set_position (p : MsgSize_t) (m : NetworkMessage) : NetworkMessage :=
  {| info := {| NetworkMessageInfo.length := msg_length m;
                NetworkMessageInfo.position := p;
                NetworkMessageInfo.overrun := msg_overrun m |};
     buffer := buffer m |}.

Definition set_length (l : MsgSize_t) (m : NetworkMessage) : NetworkMessage :=
  {| info := {| NetworkMessageInfo.length := l;
                NetworkMessageInfo.position := msg_position m;
                NetworkMessageInfo.overrun := msg_overrun m |};
     buffer := buffer m |}.

Definition set_buffer (b : list Z) (m : NetworkMessage) : NetworkMessage :=
  {| info := info m; buffer := b |}.

(** [void reset() { info = {}; }] *)
Definition reset : M NetworkMessage unit :=
  modify (fun m => {| info := NetworkMessageInfo.default; buffer := buffer m |}).

(** Modelled from the spec: the body of [NetworkMessage::getLength] is in
    networkmessage.cpp, which is not part of the sources; the spec calls the
    value [other.length]. *)
Definition getLength (m : NetworkMessage) : MsgSize_t := msg_length m.

(** Modelled from the spec: the body of [NetworkMessage::getBuffer] is in
    networkmessage.cpp, which is not part of the sources; the spec reads the
    other message "from its reserved-prefix offset onward", an offset into
    its byte array. *)
Definition getBuffer (m : NetworkMessage) : list Z := buffer m.

(** Modelled from the spec: the bodies of [canRead] and [canAdd] are in
    networkmessage.cpp, which is not part of the sources. "each primitive
    read first checks capacity - position >= requiredSize", and each write
    the same. Both are declared [const]: they answer and change nothing. *)
Definition canRead_spec (m : NetworkMessage) (sz : Z) : bool :=
  sz <=? size (buffer m) - msg_position m.

Definition canAdd_spec (m : NetworkMessage) (sz : Z) : bool :=
  sz <=? size (buffer m) - msg_position m.

(** Modelled from the spec: the body of [addPaddingBytes] is in
    networkmessage.cpp, which is not part of the sources. It "appends
    padding filler bytes to the payload", and a write that does not fit
    "performs no mutation". The spec fixes neither the filler byte, taken
    as [filler] here, nor what happens to the cursor, which this model
    advances as the other writes do. *)
Definition addPaddingBytes_spec (filler : Z) (n : Z) : M NetworkMessage unit :=
  fun m =>
    if canAdd_spec m n then
      match copy_span (replicate (Z.to_nat n) filler) (msg_position m) (buffer m) with
      | Some b =>
          Done tt
            (set_length (to_MsgSize_t (msg_length m + n))
               (set_position (to_MsgSize_t (msg_position m + n)) (set_buffer b m)))
            []
      | None => Undefined
      end
    else Done tt m [].

(** The payload region of a message: [length] bytes from the reserved
    prefix on, the span that [append] reads. *)
Definition payload (m : NetworkMessage) : option (list Z) :=
  read_span (buffer m) INITIAL_BUFFER_POSITION (msg_length m).

Section Codec.

(** [NETWORKMESSAGE_MAXSIZE] comes from utils/const.hpp and the bodies of
    [canRead], [canAdd] and [addPaddingBytes] from networkmessage.cpp;
    neither file is part of the sources. The two checks are [const]
    member functions, so they are functions of the object and of the
    size; [addPaddingBytes] is a member function of [NetworkMessage]. *)
Variable NETWORKMESSAGE_MAXSIZE : Z.
Variable canRead : NetworkMessage -> Z -> bool.
Variable canAdd : NetworkMessage -> Z -> bool.
Variable addPaddingBytes : Z -> M NetworkMessage unit.

(** A default-constructed message: [info] default-initialised and
    [std::array<uint8_t, NETWORKMESSAGE_MAXSIZE> buffer = {}]. *)
Definition NetworkMessage_new : NetworkMessage := {|
  info := NetworkMessageInfo.default;
  buffer := replicate (Z.to_nat NETWORKMESSAGE_MAXSIZE) 0
|}.

(** [template <typename T> T get()] *)
Definition get (T : CType) : M NetworkMessage (carrier T) :=
  let* readable := gets (fun m => canRead m (sizeof T)) in
  if negb readable then ret (value_init T)
  else
    let* position := gets msg_position in
    let* sourceSpan := gets (fun m => read_span (buffer m) position (sizeof T)) in
    match sourceSpan with
    | None => undefined
    | Some tempBuffer =>
        modify (set_position (to_MsgSize_t (position + sizeof T)));;
        ret (of_bytes T tempBuffer)
    end.

(** [template <typename T> void add(T value, std::source_location)] *)
Definition add (T : CType) (value : carrier T) : M NetworkMessage unit :=
  let* addable := gets (fun m => canAdd m (sizeof T)) in
  let* position := gets msg_position in
  let* bufferSize := gets (fun m => size (buffer m)) in
  if negb addable then logger (ErrorCannotAdd (sizeof T) bufferSize)
  else if position + sizeof T >? bufferSize
  then logger (ErrorBufferOverflow position (sizeof T) bufferSize)
  else
    let byteSpan := to_bytes T value in
    if size byteSpan >? to_size_t (bufferSize - position)
    then logger (ErrorSpanCopy (size byteSpan) (to_size_t (bufferSize - position)))
    else
      logger TraceAdd;;
      let* copied := gets (fun m => copy_span byteSpan position (buffer m)) in
      match copied with
      | None => undefined
      | Some b =>
          modify (set_buffer b);;
          let* position := gets msg_position in
          modify (set_position (to_MsgSize_t (position + sizeof T)));;
          let* length := gets msg_length in
          modify (set_length (to_MsgSize_t (length + sizeof T)))
      end.

(** ** OutputMessage *)

(** [class OutputMessage : public NetworkMessage], with its one data member
    [MsgSize_t outputBufferStart = INITIAL_BUFFER_POSITION]. *)
Record OutputMessage : Type := {
  base : NetworkMessage;
  outputBufferStart : MsgSize_t
}.

Definition set_base (b : NetworkMessage) (om : OutputMessage) : OutputMessage :=
  {| base := b; outputBufferStart := outputBufferStart om |}.

Definition set_outputBufferStart (start : MsgSize_t) (om : OutputMessage) : OutputMessage :=
  {| base := base om; outputBufferStart := start |}.

(** A member function of [NetworkMessage] called on an [OutputMessage]. *)
Definition inherited {A} (c : M NetworkMessage A) : M OutputMessage A :=
  zoom base set_base c.

(** [OutputMessage() = default] *)
Definition OutputMessage_new : OutputMessage := {|
  base := NetworkMessage_new;
  outputBufferStart := INITIAL_BUFFER_POSITION
|}.

(** [template <typename T> void add_header(T addHeader)]. The [assert]
    after the guard restates the guard and cannot fail. *)
Definition add_header (T : CType) (addHeader : carrier T) : M OutputMessage unit :=
  let* start := gets outputBufferStart in
  if start <? sizeof T then logger ErrorHeaderSpace
  else
    modify (set_outputBufferStart (to_MsgSize_t (start - sizeof T)));;
    let byteSpan := to_bytes T addHeader in
    let* start := gets outputBufferStart in
    let* copied := gets (fun om => copy_span byteSpan start (buffer (base om))) in
    match copied with
    | None => undefined
    | Some b =>
        inherited (modify (set_buffer b));;
        let* length := gets (fun om => msg_length (base om)) in
        inherited (modify (set_length (to_MsgSize_t (length + sizeof T))))
    end.

(** [uint8_t paddingAmount = 8 - (info.length % 8) - 1;] *)
Definition paddingAmount (length : MsgSize_t) : Z :=
  to_uint8_t (8 - Z.rem length 8 - 1).

(** [void writePaddingAmount()] *)
Definition writePaddingAmount : M OutputMessage unit :=
  let* length := gets (fun om => msg_length (base om)) in
  inherited (addPaddingBytes (paddingAmount length));;
  add_header uint8_t (paddingAmount length).

(** [static_cast<uint16_t>((info.length - 4) / 8)]: [info.length] is
    promoted to [int] and the division truncates towards zero. *)
Definition blockCount (length : MsgSize_t) : Z :=
  to_uint16_t (Z.quot (length - 4) 8).

(** [void writeMessageLength()] *)
Definition writeMessageLength : M OutputMessage unit :=
  let* length := gets (fun om => msg_length (base om)) in
  add_header uint16_t (blockCount length).

(** [void addCryptoHeader(bool addChecksum, uint32_t checksum)] *)
Definition addCryptoHeader (addChecksum : bool) (checksum : Z) : M OutputMessage unit :=
  (if addChecksum then add_header uint32_t checksum else ret tt);;
  writeMessageLength.

(** [void append(const NetworkMessage &msg)]; [msg] is another object than
    the one appended to. *)
Definition append (msg : NetworkMessage) : M OutputMessage unit :=
  let msgLen := getLength msg in
  match read_span (getBuffer msg) INITIAL_BUFFER_POSITION msgLen with
  | None => undefined
  | Some sourceSpan =>
      let* position := gets (fun om => msg_position (base om)) in
      let* copied := gets (fun om => copy_span sourceSpan position (buffer (base om))) in
      match copied with
      | None => undefined
      | Some b =>
          inherited (modify (set_buffer b));;
          let* length := gets (fun om => msg_length (base om)) in
          inherited (modify (set_length (to_MsgSize_t (length + msgLen))));;
          inherited (modify (set_position (to_MsgSize_t (position + msgLen))))
      end
  end.

(** [void append(const OutputMessage_ptr &msg)], the same body through a
    pointer. *)
Definition append_ptr (msg : OutputMessage) : M OutputMessage unit :=
  append (base msg).

(** The bytes handed over for sending: [getLength()] bytes from
    [getOutputBuffer()], which is [buffer.data() + outputBufferStart]. *)
Definition frame (om : OutputMessage) : option (list Z) :=
  read_span (buffer (base om)) (outputBufferStart om) (msg_length (base om)).

(** One call of a public member function on an [OutputMessage]: any member
    function of the base class, or one of those the derived class adds. *)
Inductive step : OutputMessage -> OutputMessage -> Prop :=
| step_inherited {A} (c : M NetworkMessage A) om a om' log :
    inherited c om = Done a om' log -> step om om'
| step_writePaddingAmount om om' log :
    writePaddingAmount om = Done tt om' log -> step om om'
| step_writeMessageLength om om' log :
    writeMessageLength om = Done tt om' log -> step om om'
| step_addCryptoHeader addChecksum checksum om om' log :
    addCryptoHeader addChecksum checksum om = Done tt om' log -> step om om'
| step_append msg om om' log :
    append msg om = Done tt om' log -> step om om'
| step_append_ptr msg om om' log :
    append_ptr msg om = Done tt om' log -> step om om'.

(** The states an [OutputMessage] goes through from its construction. *)
Inductive reachable : OutputMessage -> Prop :=
| reachable_new : reachable OutputMessage_new
| reachable_step om om' : reachable om -> step om om' -> reachable om'.

End Codec.

(** ** Values of the C++ types *)

(** The data members of a message hold values of their C++ types: the two
    counters are [uint16_t] and the size of the array is a [size_t]. *)
Definition well_formed (m : NetworkMessage) : Prop :=
  0 <= msg_length m < 2 ^ 16 /\
  0 <= msg_position m < 2 ^ 16 /\
  size (buffer m) < 2 ^ 64.

Definition well_formed_output (om : OutputMessage) : Prop :=
  well_formed (base om) /\ 0 <= outputBufferStart om < 2 ^ 16.

(** ** Concrete messages used in the examples below *)

(** A message over a 16-byte array whose cursor is one byte before the end
    of the array; nothing has gone wrong on it so far. *)
Definition edge_message : NetworkMessage := {|
  info := {| NetworkMessageInfo.length := 0;
             NetworkMessageInfo.position := 15;
             NetworkMessageInfo.overrun := false |};
  buffer := replicate 16 0
|}.

(** The bytes of "PING". *)
Definition PING : list Z := [80; 73; 78; 71].

(** An outgoing message over a 32-byte array whose payload is "PING". *)
Definition ping_message : OutputMessage := {|
  base := {| info := {| NetworkMessageInfo.length := 4;
                        NetworkMessageInfo.position := 11;
                        NetworkMessageInfo.overrun := false |};
             buffer := replicate 7 0 ++ PING ++ replicate 21 0 |};
  outputBufferStart := INITIAL_BUFFER_POSITION
|}.

(** A used message: two payload bytes written, the cursor moved on and the
    overrun flag raised. *)
Definition used_message : NetworkMessage := {|
  info := {| NetworkMessageInfo.length := 2;
             NetworkMessageInfo.position := 9;
             NetworkMessageInfo.overrun := true |};
  buffer := replicate 7 0 ++ [171; 205] ++ replicate 7 0
|}.

(** [ping_message] once three filler bytes 0x33 have been appended. *)
Definition padded_ping : NetworkMessage := {|
  info := {| NetworkMessageInfo.length := 7;
             NetworkMessageInfo.position := 14;
             NetworkMessageInfo.overrun := false |};
  buffer := replicate 7 0 ++ PING ++ [51; 51; 51] ++ replicate 18 0
|}.

(** [ping_message] after [writePaddingAmount]: the padding count is in the
    last byte of the reserved prefix. *)
Definition ping_with_padding_count : OutputMessage := {|
  base := {| info := {| NetworkMessageInfo.length := 8;
                        NetworkMessageInfo.position := 14;
                        NetworkMessageInfo.overrun := false |};
             buffer := replicate 6 0 ++ [3] ++ PING ++ [51; 51; 51] ++ replicate 18 0 |};
  outputBufferStart := 6
|}.

(** A new message over a 32-byte array after [writePaddingAmount]: seven
    filler bytes and their count. *)
Definition padded_empty : OutputMessage := {|
  base := {| info := {| NetworkMessageInfo.length := 8;
                        NetworkMessageInfo.position := 14;
                        NetworkMessageInfo.overrun := false |};
             buffer := replicate 6 0 ++ [7] ++ replicate 7 51 ++ replicate 18 0 |};
  outputBufferStart := 6
|}.

(** ** Runs of writes and reads *)

(** A value together with the template argument it is written or read
    with. *)
Record TypedValue : Type := {
  tv_type : CType;
  tv_value : carrier tv_type
}.

(** The value is one of its C++ type, and the type is trivially copyable. *)
Definition valid_value (v : TypedValue) : Prop :=
  TriviallyCopyable (tv_type v) /\ representable (tv_type v) (tv_value v).

(** The object representations of the values, one after the other. *)
Definition bytes_of (vs : list TypedValue) : list Z :=
  concat (map (fun v => to_bytes (tv_type v) (tv_value v)) vs).

(** Consecutive calls [add<T1>(v1); add<T2>(v2); ...] on one message. *)
Fixpoint add_all (canAdd : NetworkMessage -> Z -> bool) (vs : list TypedValue)
    : M NetworkMessage unit :=
  match vs with
  | [] => ret tt
  | v :: rest => add canAdd (tv_type v) (tv_value v);; add_all canAdd rest
  end.

(** Consecutive calls [get<T1>(); get<T2>(); ...] on one message. *)
Fixpoint get_all (canRead : NetworkMessage -> Z -> bool) (Ts : list CType)
    : M NetworkMessage (list TypedValue) :=
  match Ts with
  | [] => ret []
  | T :: rest =>
      let* v := get canRead T in
      let* vs := get_all canRead rest in
      ret ({| tv_type := T; tv_value := v |} :: vs)
  end.

(** ** PropStream and PropWriteStream (io/fileloader.hpp) *)

(** [class PropStream]: the two pointers [p] and [end] are offsets into the
    array they point into, [memory]; a null pointer is offset 0 into an
    empty array. A [char] is kept as the byte it holds. *)
Module PropStream.
Record t : Type := {
  memory : list Z;
  p : Z;
  end_ : Z
}.

(** [const char* p = nullptr; const char* end = nullptr;] *)
Definition default : t := {| memory := []; p := 0; end_ := 0 |}.

Definition set_p (q : Z) (s : t) : t :=
  {| memory := memory s; p := q; end_ := end_ s |}.

(** [void init(const char* a, size_t size)], [a] pointing to the first
    byte of the array [a]. *)
Definition init (a : list Z) (size : Z) : M t unit :=
  modify (fun _ => {| memory := a; p := 0; end_ := 0 + size |}).

(** [size_t size() const { return end - p; }] *)
Definition size (s : t) : Z := to_size_t (end_ s - p s).

(** [template <typename T> bool read(T &ret)]; the result pairs the value
    returned with the content of [ret] after the call. *)
Definition read (T : CType) (result : carrier T) : M t (bool * carrier T) :=
  let* remaining := gets size in
  if remaining <? sizeof T then ret (false, result)
  else
    let* byteSpan := gets (fun s => read_span (memory s) (p s) (sizeof T)) in
    match byteSpan with
    | None => undefined
    | Some tempBuffer =>
        modify (fun s => set_p (p s + sizeof T) s);;
        ret (true, of_bytes T tempBuffer)
    end.

(** [bool readString(std::string &ret)]. The local [strLen] is not
    initialised; [read] writes it before it is used, so the value passed
    in does not matter. *)
Definition readString (result : list Z) : M t (bool * list Z) :=
  let* r := read uint16_t 0 in
  let strLen := snd r in
  if negb (fst r) then ret (false, result)
  else
    let* remaining := gets size in
    if remaining <? strLen then ret (false, result)
    else
      let* sourceSpan := gets (fun s => read_span (memory s) (p s) strLen) in
      match sourceSpan with
      | None => undefined
      | Some tempBuffer =>
          modify (fun s => set_p (p s + strLen) s);;
          ret (true, tempBuffer)
      end.

(** [bool skip(size_t n)] *)
Definition skip (n : Z) : M t bool :=
  let* remaining := gets size in
  if remaining <? n then ret false
  else
    modify (fun s => set_p (p s + n) s);;
    ret true.
End PropStream.

(** [class PropWriteStream], with its one data member
    [std::vector<char> buffer]. *)
Module PropWriteStream.
Record t : Type := {
  buffer : list Z
}.

(** [PropWriteStream() = default] *)
Definition default : t := {| buffer := [] |}.

(** [const char* getStream(size_t &size) const]: the data and the size
    stored through the reference. *)
Definition getStream (s : t) : list Z * Z :=
  (buffer s, Z.of_nat (length (buffer s))).

(** [void clear()] *)
Definition clear : M t unit := modify (fun _ => {| buffer := [] |}).

(** [template <typename T> void write(T add)] *)
Definition write (T : CType) (add : carrier T) : M t unit :=
  modify (fun s => {| buffer := buffer s ++ to_bytes T add |}).

(** [void writeString(const std::string &str)] *)
Definition writeString (str : list Z) : M t unit :=
  let strLength := Z.of_nat (length str) in
  if strLength >? 65535 then write uint16_t 0
  else
    write uint16_t (to_uint16_t strLength);;
    modify (fun s => {| buffer := buffer s ++ str |}).
End PropWriteStream.

(** A value of type [unsigned char]. *)
Definition is_byte (b : Z) : Prop := 0 <= b < 256.

(** The pointers of a stream lie inside the array it was initialised
    with, in order, and the array has a size a [size_t] can hold. *)
Definition stream_ok (s : PropStream.t) : Prop :=
  0 <= PropStream.p s <= PropStream.end_ s /\
  PropStream.end_ s <= size (PropStream.memory s) /\
  size (PropStream.memory s) < 2 ^ 64.

(** The bytes of a stream not read yet, from [p] up to [end]. *)
Definition unread (s : PropStream.t) : list Z :=
  take (Z.to_nat (PropStream.end_ s - PropStream.p s))
    (drop (Z.to_nat (PropStream.p s)) (PropStream.memory s)).

(** Consecutive calls [write<T1>(v1); write<T2>(v2); ...]. *)
Fixpoint write_all (vs : list TypedValue) : M PropWriteStream.t unit :=
  match vs with
  | [] => ret tt
  | v :: rest => PropWriteStream.write (tv_type v) (tv_value v);; write_all rest
  end.

(** Consecutive reads that give up at the first one that fails, as in
    [if (!props.read<T>(x)) return false;]. *)
Fixpoint read_all (Ts : list CType) : M PropStream.t (bool * list TypedValue) :=
  match Ts with
  | [] => ret (true, [])
  | T :: rest =>
      let* r := PropStream.read T (value_init T) in
      if fst r then
        let* rs := read_all rest in
        ret (fst rs, {| tv_type := T; tv_value := snd r |} :: snd rs)
      else ret (false, [])
  end.

(** [ping_message] finalized with checksum: block count 1, the checksum
    0xDEADBEEF and the padding count fill the reserved prefix. *)
Definition finalized_ping : OutputMessage := {|
  base := {| info := {| NetworkMessageInfo.length := 14;
                        NetworkMessageInfo.position := 14;
                        NetworkMessageInfo.overrun := false |};
             buffer := [1; 0; 0xEF; 0xBE; 0xAD; 0xDE; 3] ++ PING ++ [51; 51; 51] ++
                       replicate 18 0 |};
  outputBufferStart := 0
|}.

(** ** Concrete streams and values used in the examples below *)

(** A byte, a 16-bit and a signed 32-bit value. *)
Definition sample_values : list TypedValue := [
  {| tv_type := uint8_t; tv_value := 0xAB |};
  {| tv_type := uint16_t; tv_value := 0x0102 |};
  {| tv_type := int32_t; tv_value := -2 |}
].

(** A stream of four bytes: the length prefix 5 and two bytes "AB" of a
    string that was cut short. *)
Definition cut_string_stream : PropStream.t := {|
  PropStream.memory := [5; 0; 65; 66];
  PropStream.p := 0;
  PropStream.end_ := 4
|}.

(** A check that accepts every read. *)
Definition accept_all (m : NetworkMessage) (sz : Z) : bool := true.

(** * Properties *)

(** ** Little-endian object representations *)

Lemma le_bytes_length n v : length (le_bytes n v) = n.
Proof.
  revert v. induction n as [|n IH]; intros v; simpl; [reflexivity|].
  now rewrite IH.
Qed.

Lemma le_value_le_bytes n v :
  0 <= v < 256 ^ Z.of_nat n -> le_value (le_bytes n v) = v.
Proof.
  revert v. induction n as [|n IH]; intros v Hv.
  - simpl in *. lia.
  - cbn [le_bytes le_value]. rewrite IH.
    + pose proof (Z.div_mod v 256). lia.
    + rewrite Nat2Z.inj_succ, Z.pow_succ_r in Hv by lia.
      split; [apply Z.div_pos; lia|].
      apply Z.div_lt_upper_bound; lia.
Qed.

#[export] Instance unsigned_type_copyable n : TriviallyCopyable (unsigned_type n).
Proof.
  split; simpl.
  - intros v. now rewrite le_bytes_length.
  - intros v Hv. now apply le_value_le_bytes.
Qed.

#[export] Instance signed_type_copyable n : TriviallyCopyable (signed_type n).
Proof.
  split; simpl.
  - intros v. now rewrite le_bytes_length.
  - intros v Hv.
    assert (0 < 256 ^ Z.of_nat n) as Hpos by (apply Z.pow_pos_nonneg; lia).
    rewrite le_value_le_bytes by (apply Z.mod_pos_bound; lia).
    destruct (Z.ltb_spec (2 * (v mod 256 ^ Z.of_nat n)) (256 ^ Z.of_nat n)) as [Hlt|Hge].
    + destruct (Z.neg_nonneg_cases v) as [Hneg|Hnn].
      * rewrite <- (Z.mod_add v 1) in Hlt by lia.
        rewrite Z.mod_small in Hlt by lia. lia.
      * apply Z.mod_small. lia.
    + destruct (Z.neg_nonneg_cases v) as [Hneg|Hnn].
      * rewrite <- (Z.mod_add v 1) by lia.
        rewrite Z.mod_small by lia. lia.
      * rewrite Z.mod_small in Hge by lia. lia.
Qed.

(** ** Spans *)

Lemma size_nonneg buf : 0 <= size buf.
Proof. unfold size. lia. Qed.

Lemma size_le_bytes n v : size (le_bytes n v) = Z.of_nat n.
Proof. unfold size. now rewrite le_bytes_length. Qed.

Lemma copy_span_Some src pos buf :
  0 <= pos -> pos + size src <= size buf ->
  copy_span src pos buf = Some (list_inserts (Z.to_nat pos) src buf).
Proof.
  intros H0 H1. unfold copy_span.
  destruct (Z.leb_spec 0 pos); [|lia].
  destruct (Z.leb_spec (pos + size src) (size buf)); [reflexivity|lia].
Qed.

Lemma copy_span_inv src pos buf b :
  copy_span src pos buf = Some b ->
  0 <= pos /\ pos + size src <= size buf /\ b = list_inserts (Z.to_nat pos) src buf.
Proof.
  unfold copy_span.
  destruct (Z.leb_spec 0 pos); simpl; [|discriminate].
  destruct (Z.leb_spec (pos + size src) (size buf)); [|discriminate].
  intros [= <-]. auto.
Qed.

Lemma read_span_Some buf pos n :
  0 <= pos -> 0 <= n -> pos + n <= size buf ->
  read_span buf pos n = Some (take (Z.to_nat n) (drop (Z.to_nat pos) buf)).
Proof.
  intros H0 H1 H2. unfold read_span.
  destruct (Z.leb_spec 0 pos); [|lia].
  destruct (Z.leb_spec 0 n); [|lia].
  destruct (Z.leb_spec (pos + n) (size buf)); [reflexivity|lia].
Qed.

Lemma read_span_inv buf pos n bs :
  read_span buf pos n = Some bs ->
  0 <= pos /\ 0 <= n /\ pos + n <= size buf /\
  bs = take (Z.to_nat n) (drop (Z.to_nat pos) buf).
Proof.
  unfold read_span.
  destruct (Z.leb_spec 0 pos); simpl; [|discriminate].
  destruct (Z.leb_spec 0 n); simpl; [|discriminate].
  destruct (Z.leb_spec (pos + n) (size buf)); [|discriminate].
  intros [= <-]. auto.
Qed.

Lemma read_span_size buf pos n bs : read_span buf pos n = Some bs -> size bs = n.
Proof.
  intros (H0 & H1 & H2 & ->)%read_span_inv. unfold size in *.
  rewrite length_take, length_drop. lia.
Qed.

(** What was stored by a copy is what a read of the same span gives back. *)
Lemma inserts_take_drop (src buf : list Z) (p : nat) :
  (p + length src <= length buf)%nat ->
  take (length src) (drop p (list_inserts p src buf)) = src.
Proof.
  intros Hfit. apply list_eq. intros i.
  destruct (Nat.lt_ge_cases i (length src)) as [Hi|Hi].
  - rewrite lookup_take_lt, lookup_drop by lia.
    rewrite list_lookup_inserts by lia. f_equal. lia.
  - rewrite lookup_take_ge by lia. symmetry. now apply lookup_ge_None.
Qed.

Lemma read_copy_span src pos buf b :
  copy_span src pos buf = Some b -> read_span b pos (size src) = Some src.
Proof.
  intros (H0 & H1 & ->)%copy_span_inv.
  pose proof (size_nonneg src). unfold size in *.
  rewrite read_span_Some; unfold size; rewrite ?length_inserts; try lia.
  f_equal. rewrite Nat2Z.id. apply inserts_take_drop. lia.
Qed.

Lemma read_inserts src pos n buf :
  0 <= pos -> pos + size src <= size buf -> n = size src ->
  read_span (list_inserts (Z.to_nat pos) src buf) pos n = Some src.
Proof.
  intros H0 H1 ->. apply read_copy_span with (buf := buf).
  now apply copy_span_Some.
Qed.

Lemma copy_span_size src pos buf b :
  copy_span src pos buf = Some b -> size b = size buf.
Proof.
  intros (_ & _ & ->)%copy_span_inv. unfold size. now rewrite length_inserts.
Qed.

(** A copy changes no byte outside the span it writes. *)
Lemma copy_span_outside src pos buf b (i : nat) :
  copy_span src pos buf = Some b ->
  Z.of_nat i < pos \/ pos + size src <= Z.of_nat i ->
  b !! i = buf !! i.
Proof.
  intros (H0 & H1 & ->)%copy_span_inv Hi. unfold size in *.
  destruct Hi.
  - apply list_lookup_inserts_lt. lia.
  - apply list_lookup_inserts_ge. lia.
Qed.

Lemma copy_span_inside src pos buf b (i : nat) :
  copy_span src pos buf = Some b ->
  (i < length src)%nat ->
  b !! (Z.to_nat pos + i)%nat = src !! i.
Proof.
  intros (H0 & H1 & ->)%copy_span_inv Hi. unfold size in *.
  rewrite list_lookup_inserts by lia. f_equal. lia.
Qed.

(** ** Arithmetic of the framing *)

Lemma to_MsgSize_t_range (z : Z) : 0 <= to_MsgSize_t z < 2 ^ 16.
Proof. unfold to_MsgSize_t, wrap. apply Z.mod_pos_bound. lia. Qed.

Lemma paddingAmount_value (L : Z) :
  0 <= L -> paddingAmount L = 8 - L mod 8 - 1.
Proof.
  intros HL. unfold paddingAmount, to_uint8_t, wrap.
  rewrite Z.rem_mod_nonneg by lia.
  apply Z.mod_small. pose proof (Z.mod_pos_bound L 8). change (2 ^ 8) with 256. lia.
Qed.

Lemma blockCount_value (L : Z) :
  0 <= L < 2 ^ 16 -> blockCount L = Z.quot (L - 4) 8.
Proof.
  intros HL. unfold blockCount, to_uint16_t, wrap.
  apply Z.mod_small. change (2 ^ 16) with 65536 in *.
  Z.quot_rem_to_equations. lia.
Qed.

Lemma padding_aligns (L : Z) :
  0 <= L -> (1 + (8 - L mod 8 - 1) + L) mod 8 = 0.
Proof. intros HL. Z.div_mod_to_equations. lia. Qed.

Lemma padded_length_aligned (L : Z) :
  0 <= L -> to_MsgSize_t (to_MsgSize_t (L + (8 - L mod 8 - 1)) + 1) mod 8 = 0.
Proof.
  intros HL. unfold to_MsgSize_t, wrap. change (2 ^ 16) with 65536.
  Z.div_mod_to_equations. lia.
Qed.

(** ** The generic reader and writer *)

Ltac run :=
  unfold get, add, add_header, writePaddingAmount, writeMessageLength,
    addCryptoHeader, append, append_ptr, reset, inherited, zoom,
    bind, gets, modify, ret, logger, undefined; simpl.

Section CodecProperties.

#[local] Set Default Proof Using "Type".

Variable NETWORKMESSAGE_MAXSIZE : Z.
Variable canRead : NetworkMessage -> Z -> bool.
Variable canAdd : NetworkMessage -> Z -> bool.
Variable addPaddingBytes : Z -> M NetworkMessage unit.

(** C1, as the code has it: when [canRead] refuses [sizeof(T)] bytes,
    [get<T>] returns the zero value [T()], logs nothing, touches no byte of
    the array and leaves the whole message as it was: the cursor is not
    advanced and the overrun flag keeps the value it had (it is not set).
    This holds whatever the body of the [const] function [canRead] is. *)
Theorem get_insufficient (T : CType) (m : NetworkMessage) :
  canRead m (sizeof T) = false ->
  get canRead T m = Done (value_init T) m [].
Proof.
  intros Hno. run. now rewrite Hno.
Qed.

(** C2: a value that does not fit between the cursor and the end of the
    array is not written. [add<T>] returns with the message exactly as it
    was (array, length, position and overrun flag) and one error entry in
    the log: the one of [canAdd] when [canAdd] refuses, the one of the
    explicit bounds check otherwise. *)
Theorem add_overflow_no_mutation (T : CType) (value : carrier T) (m : NetworkMessage) :
  size (buffer m) - msg_position m < sizeof T ->
  add canAdd T value m =
    Done tt m
      [if canAdd m (sizeof T)
       then ErrorBufferOverflow (msg_position m) (sizeof T) (size (buffer m))
       else ErrorCannotAdd (sizeof T) (size (buffer m))].
Proof.
  intros Hover. run.
  destruct (canAdd m (sizeof T)); simpl; [|reflexivity].
  rewrite Z.gtb_ltb.
  destruct (Z.ltb_spec (size (buffer m)) (msg_position m + sizeof T)); [reflexivity|lia].
Qed.

(** What [add<T>] does when the value fits. *)
Lemma add_fits (T : CType) `{!TriviallyCopyable T} (value : carrier T) (m : NetworkMessage) :
  well_formed m ->
  msg_position m + sizeof T <= size (buffer m) ->
  canAdd m (sizeof T) = true ->
  add canAdd T value m =
    Done tt
      {| info := {| NetworkMessageInfo.length := to_MsgSize_t (msg_length m + sizeof T);
                    NetworkMessageInfo.position := to_MsgSize_t (msg_position m + sizeof T);
                    NetworkMessageInfo.overrun := msg_overrun m |};
         buffer := list_inserts (Z.to_nat (msg_position m)) (to_bytes T value) (buffer m) |}
      [TraceAdd].
Proof.
  intros (Hlen & Hpos & Hsize) Hfit Hcan. run. rewrite Hcan. simpl.
  pose proof (to_bytes_size value) as Hsz. fold (size (to_bytes T value)) in Hsz.
  pose proof (size_nonneg (to_bytes T value)) as Hnn.
  rewrite !Z.gtb_ltb.
  destruct (Z.ltb_spec (size (buffer m)) (msg_position m + sizeof T)); [lia|].
  unfold to_size_t, wrap. rewrite (Z.mod_small (size (buffer m) - msg_position m)) by lia.
  destruct (Z.ltb_spec (size (buffer m) - msg_position m) (size (to_bytes T value))); [lia|].
  simpl. rewrite copy_span_Some by lia. reflexivity.
Qed.

(** C3: on a message with room for [sizeof(T)] bytes at the cursor (and on
    which [canAdd] agrees), [add<T>] stores the value, logging only its
    trace line, and advances position and length by [sizeof(T)] in
    [MsgSize_t] arithmetic, which is exactly [sizeof(T)] unless the 16-bit
    counter overflows; with the cursor put back where the value was
    written, [get<T>] returns the very value and moves the cursor past
    it. *)
Theorem add_get_roundtrip (T : CType) `{!TriviallyCopyable T}
    (value : carrier T) (m : NetworkMessage) :
  representable T value ->
  well_formed m ->
  msg_position m + sizeof T <= size (buffer m) ->
  canAdd m (sizeof T) = true ->
  exists m1,
    add canAdd T value m = Done tt m1 [TraceAdd] /\
    msg_position m1 = to_MsgSize_t (msg_position m + sizeof T) /\
    msg_length m1 = to_MsgSize_t (msg_length m + sizeof T) /\
    (msg_position m + sizeof T < 2 ^ 16 -> msg_position m1 = msg_position m + sizeof T) /\
    (msg_length m + sizeof T < 2 ^ 16 -> msg_length m1 = msg_length m + sizeof T) /\
    (canRead (set_position (msg_position m) m1) (sizeof T) = true ->
     get canRead T (set_position (msg_position m) m1) =
       Done value (set_position (to_MsgSize_t (msg_position m + sizeof T)) m1) []).
Proof.
  intros Hrep Hwf Hfit Hcan.
  pose proof (to_bytes_size value) as Hsz. fold (size (to_bytes T value)) in Hsz.
  pose proof (size_nonneg (to_bytes T value)) as Hnn.
  destruct Hwf as (Hlen & Hpos & Hsize).
  eexists. split; [apply add_fits; unfold well_formed; auto|].
  unfold msg_position, msg_length, to_MsgSize_t, wrap; simpl.
  repeat split; try (intros; apply Z.mod_small; unfold msg_position, msg_length in *; lia).
  intros Hread. run. rewrite Hread. simpl.
  fold (msg_position m).
  rewrite <- Hsz.
  erewrite read_copy_span by (apply copy_span_Some; unfold msg_position in *; lia).
  simpl. now rewrite of_to_bytes.
Qed.

(** ** Headers written backwards *)

Lemma sizeof_nonneg (T : CType) `{!TriviallyCopyable T} : 0 <= sizeof T.
Proof. rewrite <- (to_bytes_size (value_init T)). lia. Qed.

Lemma add_header_rejected (T : CType) (addHeader : carrier T) (om : OutputMessage) :
  outputBufferStart om < sizeof T ->
  add_header T addHeader om = Done tt om [ErrorHeaderSpace].
Proof.
  intros Hlt. run.
  destruct (Z.ltb_spec (outputBufferStart om) (sizeof T)); [reflexivity|lia].
Qed.

Lemma add_header_fits (T : CType) `{!TriviallyCopyable T}
    (addHeader : carrier T) (om : OutputMessage) :
  sizeof T <= outputBufferStart om < 2 ^ 16 ->
  outputBufferStart om <= size (buffer (base om)) ->
  add_header T addHeader om =
    Done tt
      {| base :=
           {| info := {| NetworkMessageInfo.length :=
                           to_MsgSize_t (msg_length (base om) + sizeof T);
                         NetworkMessageInfo.position := msg_position (base om);
                         NetworkMessageInfo.overrun := msg_overrun (base om) |};
              buffer := list_inserts (Z.to_nat (outputBufferStart om - sizeof T))
                          (to_bytes T addHeader) (buffer (base om)) |};
         outputBufferStart := outputBufferStart om - sizeof T |}
      [].
Proof.
  intros Hroom Hin. run.
  pose proof (sizeof_nonneg T) as Hnn.
  pose proof (to_bytes_size addHeader) as Hsz. fold (size (to_bytes T addHeader)) in Hsz.
  destruct (Z.ltb_spec (outputBufferStart om) (sizeof T)); [lia|]. simpl.
  unfold to_MsgSize_t at 1 2 3 4. unfold wrap.
  rewrite (Z.mod_small (outputBufferStart om - sizeof T)) by lia.
  rewrite copy_span_Some by lia. reflexivity.
Qed.

(** The cursor after any call of [add_header]: where it was, or one whole
    header lower. *)
Lemma add_header_cursor (T : CType) `{!TriviallyCopyable T}
    (addHeader : carrier T) (om om' : OutputMessage) log :
  0 <= outputBufferStart om < 2 ^ 16 ->
  add_header T addHeader om = Done tt om' log ->
  (outputBufferStart om < sizeof T /\ om' = om) \/
  (sizeof T <= outputBufferStart om /\
   outputBufferStart om' = outputBufferStart om - sizeof T).
Proof.
  intros Hrange Hrun.
  pose proof (sizeof_nonneg T) as Hnn.
  destruct (Z.lt_ge_cases (outputBufferStart om) (sizeof T)) as [Hlt|Hge].
  - left. rewrite add_header_rejected in Hrun by assumption.
    split; [assumption|congruence].
  - right. split; [assumption|].
    revert Hrun. run.
    destruct (Z.ltb_spec (outputBufferStart om) (sizeof T)); [lia|]. simpl.
    destruct (copy_span _ _ _); simpl; [|discriminate].
    intros [= <- _]. simpl. unfold to_MsgSize_t, wrap. apply Z.mod_small. lia.
Qed.


(** C4: the padding amount computed by [writePaddingAmount] for a payload
    of [L] bytes is [8 - (L mod 8) - 1], and one count byte, that many
    filler bytes and the payload together are a multiple of 8 bytes long.
    Accordingly, when [addPaddingBytes] has appended that many bytes (the
    length grew by the padding amount) and one byte of the reserved prefix
    is left for the count, [writePaddingAmount] stores the count just below
    the cursor and leaves a message whose length is a multiple of 8. *)
Theorem writePaddingAmount_aligned (om : OutputMessage) (m1 : NetworkMessage) log1 :
  0 <= msg_length (base om) ->
  addPaddingBytes (paddingAmount (msg_length (base om))) (base om) = Done tt m1 log1 ->
  msg_length m1 =
    to_MsgSize_t (msg_length (base om) + paddingAmount (msg_length (base om))) ->
  1 <= outputBufferStart om < 2 ^ 16 ->
  outputBufferStart om <= size (buffer m1) ->
  paddingAmount (msg_length (base om)) = 8 - msg_length (base om) mod 8 - 1 /\
  (1 + paddingAmount (msg_length (base om)) + msg_length (base om)) mod 8 = 0 /\
  exists om',
    writePaddingAmount addPaddingBytes om = Done tt om' log1 /\
    outputBufferStart om' = outputBufferStart om - 1 /\
    buffer (base om') !! Z.to_nat (outputBufferStart om') =
      Some (paddingAmount (msg_length (base om))) /\
    msg_length (base om') mod 8 = 0.
Proof.
  intros HL Hpad Hlen Hroom Hin.
  pose proof (paddingAmount_value _ HL) as Hval.
  split; [assumption|]. split.
  { rewrite Hval. now apply padding_aligns. }
  pose proof (add_header_fits uint8_t (paddingAmount (msg_length (base om)))
                (set_base m1 om)) as Hhdr.
  simpl in Hhdr. specialize (Hhdr Hroom Hin).
  eexists. split.
  { unfold writePaddingAmount, bind, gets, inherited, zoom. rewrite Hpad.
    rewrite Hhdr. rewrite app_nil_r. reflexivity. }
  simpl. split; [reflexivity|]. split.
  - unfold size in Hin.
    rewrite list_lookup_insert_eq by lia. f_equal.
    rewrite Hval. pose proof (Z.mod_pos_bound (msg_length (base om)) 8).
    apply Z.mod_small. lia.
  - unfold msg_length at 1. simpl. rewrite Hlen, Hval.
    now apply padded_length_aligned.
Qed.



(** Two spans read alike from arrays that agree on them. *)
Lemma read_span_ext (b b' : list Z) (pos n : Z) :
  size b = size b' ->
  (forall i : nat, pos <= Z.of_nat i < pos + n -> b !! i = b' !! i) ->
  read_span b pos n = read_span b' pos n.
Proof.
  intros Hsize Hagree. unfold read_span. rewrite Hsize.
  destruct (Z.leb_spec 0 pos); simpl; [|reflexivity].
  destruct (Z.leb_spec 0 n); simpl; [|reflexivity].
  destruct (Z.leb_spec (pos + n) (size b')); [|reflexivity].
  f_equal. apply list_eq. intros i.
  destruct (Nat.lt_ge_cases i (Z.to_nat n)) as [Hi|Hi].
  - rewrite !lookup_take_lt, !lookup_drop by assumption. apply Hagree. lia.
  - now rewrite !lookup_take_ge by assumption.
Qed.

(** C5: with room in the reserved prefix, [addCryptoHeader] stores the four
    checksum bytes just below the cursor exactly when [addChecksum] is
    set, then in either case the two bytes of [(length - 4) / 8] (the
    division of C++, truncating) below that, [length] being the length at
    that moment: the one found when no checksum was stored, four more
    when one was. The 4 is subtracted in both cases. Nothing else in the
    array changes, the read/write cursor stays, and the length grows by
    the bytes stored. *)
Theorem addCryptoHeader_headers (addChecksum : bool) (checksum : Z) (om : OutputMessage) :
  well_formed_output om ->
  (if addChecksum then 6 else 2) <= outputBufferStart om ->
  outputBufferStart om <= size (buffer (base om)) ->
  exists om',
    addCryptoHeader addChecksum checksum om = Done tt om' [] /\
    let L := if addChecksum then to_MsgSize_t (msg_length (base om) + 4)
             else msg_length (base om) in
    outputBufferStart om' =
      outputBufferStart om - (if addChecksum then 4 else 0) - 2 /\
    read_span (buffer (base om')) (outputBufferStart om') 2 =
      Some (to_bytes uint16_t (Z.quot (L - 4) 8)) /\
    read_span (buffer (base om')) (outputBufferStart om' + 2)
        (if addChecksum then 4 else 0) =
      Some (if addChecksum then to_bytes uint32_t checksum else []) /\
    msg_length (base om') = to_MsgSize_t (L + 2) /\
    msg_position (base om') = msg_position (base om) /\
    forall i : nat,
      Z.of_nat i < outputBufferStart om' \/ outputBufferStart om <= Z.of_nat i ->
      buffer (base om') !! i = buffer (base om) !! i.
Proof.
  intros ((Hlen & Hpos & Hsize) & Hstart) Hroom Hin.
  unfold addCryptoHeader, writeMessageLength, bind, gets, ret.
  destruct addChecksum.
  - rewrite (add_header_fits uint32_t) by (simpl; lia).
    cbn [base msg_length info NetworkMessageInfo.length].
    rewrite (add_header_fits uint16_t)
      by (cbn [base buffer outputBufferStart sizeof uint16_t uint32_t unsigned_type];
          unfold size in *; rewrite ?length_inserts; lia).
    eexists. split; [reflexivity|].
    cbn [base buffer outputBufferStart info msg_length msg_position
         NetworkMessageInfo.length NetworkMessageInfo.position
         sizeof uint16_t uint32_t unsigned_type to_bytes].
    change (Z.of_nat 4) with 4. change (Z.of_nat 2) with 2.
    pose proof (to_MsgSize_t_range (NetworkMessageInfo.length (info (base om)) + 4)) as HL1.
    unfold msg_length in *.
    rewrite (blockCount_value _ HL1).
    set (L1 := to_MsgSize_t _) in *.
    set (b1 := list_inserts _ (le_bytes 4 checksum) _).
    assert (size b1 = size (buffer (base om))) as Hb1
        by (unfold size, b1; now rewrite length_inserts).
    split; [lia|]. split.
    { apply read_inserts; [lia| |reflexivity]. rewrite Hb1, size_le_bytes. lia. }
    split.
    { replace (outputBufferStart om - 4 - 2 + 2) with (outputBufferStart om - 4) by lia.
      rewrite <- (read_inserts (le_bytes 4 checksum) (outputBufferStart om - 4) 4
                   (buffer (base om)))
        by (rewrite ?size_le_bytes; lia || reflexivity).
      fold b1. apply read_span_ext.
      - unfold size. now rewrite length_inserts.
      - intros i Hi. apply list_lookup_inserts_ge. simpl. lia. }
    split; [reflexivity|]. split; [reflexivity|].
    intros i Hi. unfold b1. destruct Hi.
    + rewrite !list_lookup_inserts_lt by lia. reflexivity.
    + rewrite !list_lookup_inserts_ge by (simpl; lia). reflexivity.
  - simpl app.
    rewrite (add_header_fits uint16_t) by (simpl; lia).
    eexists. split; [reflexivity|].
    cbn [base buffer outputBufferStart info msg_length msg_position
         NetworkMessageInfo.length NetworkMessageInfo.position
         sizeof uint16_t unsigned_type to_bytes].
    change (Z.of_nat 2) with 2.
    unfold msg_length in *.
    rewrite (blockCount_value _ Hlen).
    split; [lia|]. split.
    { replace (outputBufferStart om - 0 - 2) with (outputBufferStart om - 2) by lia.
      apply read_inserts; rewrite ?size_le_bytes; lia || reflexivity. }
    split.
    { apply read_span_Some; unfold size in *; rewrite ?length_inserts; lia. }
    split; [reflexivity|]. split; [reflexivity|].
    intros i Hi. destruct Hi.
    + rewrite list_lookup_inserts_lt by lia. reflexivity.
    + rewrite list_lookup_inserts_ge by (simpl; lia). reflexivity.
Qed.

(** ** The header cursor *)

Lemma bind_Done {S A B} (c : M S A) (k : A -> M S B) s b s2 log :
  bind c k s = Done b s2 log ->
  exists a s1 log1 log2,
    c s = Done a s1 log1 /\ k a s1 = Done b s2 log2 /\ log = log1 ++ log2.
Proof.
  unfold bind. destruct (c s) as [a s1 log1|]; [|discriminate].
  destruct (k a s1) as [b' s2' log2|] eqn:Hk; [|discriminate].
  intros [= <- <- <-]. exists a, s1, log1, log2. auto.
Qed.

Lemma inherited_cursor {A} (c : M NetworkMessage A) om a om' log :
  inherited c om = Done a om' log -> outputBufferStart om' = outputBufferStart om.
Proof.
  unfold inherited, zoom. destruct (c (base om)); [|discriminate].
  now intros [= _ <- _].
Qed.

Lemma add_header_cursor_le (T : CType) `{!TriviallyCopyable T}
    (addHeader : carrier T) (om om' : OutputMessage) log :
  0 <= outputBufferStart om < 2 ^ 16 ->
  add_header T addHeader om = Done tt om' log ->
  0 <= outputBufferStart om' <= outputBufferStart om.
Proof.
  intros Hrange Hrun. pose proof (sizeof_nonneg T).
  destruct (add_header_cursor T addHeader om om' log Hrange Hrun) as [[_ ->]|[? ->]]; lia.
Qed.

Lemma append_cursor msg om om' log :
  append msg om = Done tt om' log -> outputBufferStart om' = outputBufferStart om.
Proof.
  unfold append. destruct (read_span _ _ _); [|discriminate].
  unfold bind at 1 2. unfold gets at 1 2.
  destruct (copy_span _ _ _); [|discriminate].
  run. now intros [= <- _].
Qed.

(** A call never raises the cursor, and never takes it below zero. *)
Lemma step_cursor om om' :
  0 <= outputBufferStart om < 2 ^ 16 ->
  step addPaddingBytes om om' ->
  0 <= outputBufferStart om' <= outputBufferStart om.
Proof.
  intros Hrange Hstep. destruct Hstep as
    [A c om a om' log Hrun | om om' log Hrun | om om' log Hrun
    | addChecksum checksum om om' log Hrun | msg om om' log Hrun | msg om om' log Hrun].
  - apply inherited_cursor in Hrun. lia.
  - unfold writePaddingAmount in Hrun.
    apply bind_Done in Hrun as (L & s0 & l0 & l0' & [= <- <- <-] & Hrun & _).
    apply bind_Done in Hrun as ([] & s1 & l1 & l2 & Hpad & Hhdr & _).
    apply inherited_cursor in Hpad.
    apply add_header_cursor_le in Hhdr; [lia|apply _|lia].
  - unfold writeMessageLength in Hrun.
    apply bind_Done in Hrun as (L & s0 & l0 & l0' & [= <- <- <-] & Hrun & _).
    apply add_header_cursor_le in Hrun; [lia|apply _|lia].
  - unfold addCryptoHeader, writeMessageLength in Hrun.
    apply bind_Done in Hrun as ([] & s1 & l1 & l2 & Hsum & Hrun & _).
    apply bind_Done in Hrun as (L & s0 & l0 & l0' & [= <- <- <-] & Hrun & _).
    assert (0 <= outputBufferStart s1 <= outputBufferStart om) as Hs1.
    { destruct addChecksum.
      - apply add_header_cursor_le in Hsum; [lia|apply _|lia].
      - injection Hsum as <- _. lia. }
    apply add_header_cursor_le in Hrun; [lia|apply _|lia].
  - apply append_cursor in Hrun. lia.
  - apply append_cursor in Hrun. lia.
Qed.

Lemma reachable_cursor om :
  reachable NETWORKMESSAGE_MAXSIZE addPaddingBytes om ->
  0 <= outputBufferStart om <= INITIAL_BUFFER_POSITION.
Proof.
  induction 1 as [|om om' Hreach IH Hstep].
  - simpl. unfold INITIAL_BUFFER_POSITION. lia.
  - unfold INITIAL_BUFFER_POSITION in *.
    apply step_cursor in Hstep; lia.
Qed.

(** The cursor after a call of [add_header], as a function of the cursor
    before it. *)
Lemma add_header_cursor_exact (T : CType) `{!TriviallyCopyable T}
    (addHeader : carrier T) (om om' : OutputMessage) log :
  0 <= outputBufferStart om < 2 ^ 16 ->
  add_header T addHeader om = Done tt om' log ->
  outputBufferStart om' =
    if outputBufferStart om <? sizeof T then outputBufferStart om
    else outputBufferStart om - sizeof T.
Proof.
  intros Hrange Hrun.
  destruct (add_header_cursor T addHeader om om' log Hrange Hrun) as [[Hlt ->]|[Hge ->]];
    destruct (Z.ltb_spec (outputBufferStart om) (sizeof T)); lia.
Qed.

Lemma writePaddingAmount_cursor (om om' : OutputMessage) log :
  0 <= outputBufferStart om < 2 ^ 16 ->
  writePaddingAmount addPaddingBytes om = Done tt om' log ->
  outputBufferStart om' =
    if outputBufferStart om <? 1 then outputBufferStart om
    else outputBufferStart om - 1.
Proof.
  intros Hrange Hrun. unfold writePaddingAmount in Hrun.
  apply bind_Done in Hrun as (L & s0 & l0 & l0' & [= <- <- <-] & Hrun & _).
  apply bind_Done in Hrun as ([] & s1 & l1 & l2 & Hpad & Hhdr & _).
  apply inherited_cursor in Hpad.
  apply add_header_cursor_exact in Hhdr; [|apply _|lia].
  rewrite Hpad in Hhdr. exact Hhdr.
Qed.

Lemma writeMessageLength_cursor (om om' : OutputMessage) log :
  0 <= outputBufferStart om < 2 ^ 16 ->
  writeMessageLength om = Done tt om' log ->
  outputBufferStart om' =
    if outputBufferStart om <? 2 then outputBufferStart om
    else outputBufferStart om - 2.
Proof.
  intros Hrange Hrun. unfold writeMessageLength in Hrun.
  apply bind_Done in Hrun as (L & s0 & l0 & l0' & [= <- <- <-] & Hrun & _).
  apply add_header_cursor_exact in Hrun; [exact Hrun|apply _|lia].
Qed.

Lemma addCryptoHeader_cursor (addChecksum : bool) (checksum : Z)
    (om om' : OutputMessage) log :
  0 <= outputBufferStart om < 2 ^ 16 ->
  addCryptoHeader addChecksum checksum om = Done tt om' log ->
  outputBufferStart om' =
    let afterChecksum :=
      if addChecksum && (4 <=? outputBufferStart om)
      then outputBufferStart om - 4 else outputBufferStart om in
    if afterChecksum <? 2 then afterChecksum else afterChecksum - 2.
Proof.
  intros Hrange Hrun. unfold addCryptoHeader in Hrun.
  apply bind_Done in Hrun as ([] & s1 & l1 & l2 & Hsum & Hlength & _).
  assert (outputBufferStart s1 =
          if addChecksum && (4 <=? outputBufferStart om)
          then outputBufferStart om - 4 else outputBufferStart om) as Hs1.
  { destruct addChecksum; simpl.
    - apply add_header_cursor_exact in Hsum; [|apply _|lia].
      change (sizeof uint32_t) with 4 in Hsum. rewrite Hsum.
      destruct (Z.ltb_spec (outputBufferStart om) 4);
        destruct (Z.leb_spec 4 (outputBufferStart om)); lia.
    - injection Hsum as <- _. reflexivity. }
  apply writeMessageLength_cursor in Hlength.
  - rewrite Hs1 in Hlength. exact Hlength.
  - rewrite Hs1. destruct (addChecksum && (4 <=? outputBufferStart om)) eqn:Hb; [|lia].
    apply andb_prop in Hb as [_ Hb]. apply Z.leb_le in Hb. lia.
Qed.

(** C6: the header cursor of a new [OutputMessage] is 7; in every state the
    message goes through it stays between 0 and 7; no call raises it;
    [add_header<T>] either takes it down by [sizeof(T)], which then fits
    below it, or leaves the message alone; and when fewer than [sizeof(T)]
    bytes of the prefix remain the header is rejected: the message,
    cursor included, is left as it was and the error is logged. Nothing
    but a header moves the cursor: a member function inherited from
    [NetworkMessage] and both overloads of [append] leave it where it
    was, and the three functions that write headers take it down by
    exactly the sizes of the headers that fitted, 1 for the padding count,
    2 for the length, 4 for the checksum. *)
Theorem outputBufferStart_invariant (om : OutputMessage) :
  reachable NETWORKMESSAGE_MAXSIZE addPaddingBytes om ->
  outputBufferStart (OutputMessage_new NETWORKMESSAGE_MAXSIZE) = 7 /\
  0 <= outputBufferStart om <= 7 /\
  (forall om', step addPaddingBytes om om' ->
     0 <= outputBufferStart om' <= outputBufferStart om) /\
  (forall (T : CType) `{!TriviallyCopyable T} (addHeader : carrier T) om' log,
     add_header T addHeader om = Done tt om' log ->
     (outputBufferStart om < sizeof T /\ om' = om) \/
     (sizeof T <= outputBufferStart om /\
      outputBufferStart om' = outputBufferStart om - sizeof T)) /\
  (forall (T : CType) (addHeader : carrier T),
     outputBufferStart om < sizeof T ->
     add_header T addHeader om = Done tt om [ErrorHeaderSpace]) /\
  (forall (A : Type) (c : M NetworkMessage A) (a : A) om' log,
     inherited c om = Done a om' log ->
     outputBufferStart om' = outputBufferStart om) /\
  (forall (msg : NetworkMessage) om' log,
     append msg om = Done tt om' log ->
     outputBufferStart om' = outputBufferStart om) /\
  (forall (msg : OutputMessage) om' log,
     append_ptr msg om = Done tt om' log ->
     outputBufferStart om' = outputBufferStart om) /\
  (forall om' log,
     writePaddingAmount addPaddingBytes om = Done tt om' log ->
     outputBufferStart om' =
       if outputBufferStart om <? 1 then outputBufferStart om
       else outputBufferStart om - 1) /\
  (forall om' log,
     writeMessageLength om = Done tt om' log ->
     outputBufferStart om' =
       if outputBufferStart om <? 2 then outputBufferStart om
       else outputBufferStart om - 2) /\
  (forall (addChecksum : bool) (checksum : Z) om' log,
     addCryptoHeader addChecksum checksum om = Done tt om' log ->
     outputBufferStart om' =
       let afterChecksum :=
         if addChecksum && (4 <=? outputBufferStart om)
         then outputBufferStart om - 4 else outputBufferStart om in
       if afterChecksum <? 2 then afterChecksum else afterChecksum - 2).
Proof.
  intros Hreach. apply reachable_cursor in Hreach.
  unfold INITIAL_BUFFER_POSITION in Hreach.
  split; [reflexivity|]. split; [assumption|].
  split; [|split; [|split; [|split; [|split; [|split; [|split; [|split]]]]]]].
  - intros om' Hstep. apply step_cursor; [lia|assumption].
  - intros T HT addHeader om' log Hrun.
    apply (add_header_cursor T addHeader om om' log); [lia|assumption].
  - intros T addHeader Hlt. now apply add_header_rejected.
  - intros A c a om' log Hrun. now apply inherited_cursor in Hrun.
  - intros msg om' log Hrun. now apply append_cursor in Hrun.
  - intros msg om' log Hrun. unfold append_ptr in Hrun.
    now apply append_cursor in Hrun.
  - intros om' log Hrun. apply (writePaddingAmount_cursor om om' log); [lia|assumption].
  - intros om' log Hrun. apply (writeMessageLength_cursor om om' log); [lia|assumption].
  - intros addChecksum checksum om' log Hrun.
    apply (addCryptoHeader_cursor addChecksum checksum om om' log); [lia|assumption].
Qed.

(** ** Appending a message *)

(** C7: when the payload of [B] lies inside its array and fits between the
    cursor of [A] and the end of the array of [A], [A.append(B)] succeeds
    without logging, through either overload: by reference, or through a
    pointer to an [OutputMessage] that is [B]; both leave [A] in the same
    state. Afterwards the [B.length] bytes of [A] from its
    earlier position on are the payload of [B], every byte of [A] outside
    that span, so every byte below the earlier position, is unchanged,
    and length and position of [A] have grown by [B.length] in
    [MsgSize_t] arithmetic, which is exactly [B.length] unless the 16-bit
    counter overflows. The header cursor does not move. *)
Theorem append_copies_payload (B : NetworkMessage) (A : OutputMessage) :
  well_formed (base A) ->
  0 <= msg_length B ->
  INITIAL_BUFFER_POSITION + msg_length B <= size (buffer B) ->
  msg_position (base A) + msg_length B <= size (buffer (base A)) ->
  exists A' bytes,
    append B A = Done tt A' [] /\
    (forall Bp : OutputMessage, base Bp = B -> append_ptr Bp A = Done tt A' []) /\
    payload B = Some bytes /\
    read_span (buffer (base A')) (msg_position (base A)) (msg_length B) = Some bytes /\
    (forall i : nat,
       Z.of_nat i < msg_position (base A) \/
       msg_position (base A) + msg_length B <= Z.of_nat i ->
       buffer (base A') !! i = buffer (base A) !! i) /\
    size (buffer (base A')) = size (buffer (base A)) /\
    msg_length (base A') = to_MsgSize_t (msg_length (base A) + msg_length B) /\
    msg_position (base A') = to_MsgSize_t (msg_position (base A) + msg_length B) /\
    (msg_length (base A) + msg_length B < 2 ^ 16 ->
     msg_length (base A') = msg_length (base A) + msg_length B) /\
    (msg_position (base A) + msg_length B < 2 ^ 16 ->
     msg_position (base A') = msg_position (base A) + msg_length B) /\
    outputBufferStart A' = outputBufferStart A.
Proof.
  intros (Hlen & Hpos & Hsize) HB Hsrc Hdst.
  unfold INITIAL_BUFFER_POSITION in Hsrc.
  assert (read_span (buffer B) INITIAL_BUFFER_POSITION (msg_length B) =
          Some (take (Z.to_nat (msg_length B)) (drop 7 (buffer B)))) as Hread.
  { unfold INITIAL_BUFFER_POSITION. rewrite read_span_Some by lia. reflexivity. }
  set (bytes := take (Z.to_nat (msg_length B)) (drop 7 (buffer B))) in *.
  assert (size bytes = msg_length B) as Hbytes by (eapply read_span_size; eassumption).
  assert (copy_span bytes (msg_position (base A)) (buffer (base A)) =
          Some (list_inserts (Z.to_nat (msg_position (base A))) bytes (buffer (base A))))
    as Hcopy by (apply copy_span_Some; lia).
  eexists. exists bytes. split.
  { unfold append, getLength, getBuffer. rewrite Hread.
    unfold bind at 1 2. unfold gets at 1 2. rewrite Hcopy. run. reflexivity. }
  split.
  { intros Bp HBp. unfold append_ptr. rewrite HBp.
    unfold append, getLength, getBuffer. rewrite Hread.
    unfold bind at 1 2. unfold gets at 1 2. rewrite Hcopy. run. reflexivity. }
  cbn [base buffer info outputBufferStart msg_length msg_position set_base
       NetworkMessageInfo.length NetworkMessageInfo.position].
  split; [exact Hread|]. split.
  { apply read_inserts; lia. }
  split.
  { intros i Hi. eapply copy_span_outside; [exact Hcopy|lia]. }
  split.
  { eapply copy_span_size. exact Hcopy. }
  unfold msg_length, msg_position in *.
  repeat split; try reflexivity;
    intros; unfold to_MsgSize_t, wrap; apply Z.mod_small; lia.
Qed.

(** ** Scenarios *)

(** C8: an [OutputMessage] with nothing prepended yet whose payload is the
    four bytes "PING" is finalized without checksum. [writePaddingAmount]
    computes a padding of 3; once [addPaddingBytes] has appended its three
    filler bytes [fill], the count byte 3 goes to offset 6 and the padded
    body (1 + 3 + 4) is 8 bytes long; [addCryptoHeader] then stores the
    block count [(8 - 4) / 8 = 0] in two bytes at offset 4. The frame
    handed over is: block count 0, padding count 3, "PING", the three
    filler bytes. *)
Theorem ping_frame (om : OutputMessage) (m1 : NetworkMessage) log1
    (fill : list Z) (checksum : Z) :
  outputBufferStart om = INITIAL_BUFFER_POSITION ->
  msg_length (base om) = 4 ->
  payload (base om) = Some PING ->
  addPaddingBytes 3 (base om) = Done tt m1 log1 ->
  msg_length m1 = 7 ->
  payload m1 = Some (PING ++ fill) ->
  paddingAmount (msg_length (base om)) = 3 /\
  length fill = 3%nat /\
  exists om1 om2,
    writePaddingAmount addPaddingBytes om = Done tt om1 log1 /\
    msg_length (base om1) = 8 /\
    addCryptoHeader false checksum om1 = Done tt om2 [] /\
    frame om2 = Some (to_bytes uint16_t 0 ++ to_bytes uint8_t 3 ++ PING ++ fill).
Proof.
  intros Hstart Hlen Hping Hpad Hlen1 Hpay.
  unfold INITIAL_BUFFER_POSITION in Hstart.
  rewrite Hlen. split; [reflexivity|].
  unfold payload in Hpay. rewrite Hlen1 in Hpay.
  pose proof (read_span_size _ _ _ _ Hpay) as Hsz.
  apply read_span_inv in Hpay as (_ & _ & Hin & Hpay).
  unfold INITIAL_BUFFER_POSITION in *.
  assert (length fill = 3%nat) as Hfill.
  { unfold size in Hsz. rewrite length_app in Hsz. simpl in Hsz. lia. }
  split; [assumption|].
  pose proof (add_header_fits uint8_t 3 (set_base m1 om)) as Hhdr.
  cbn [set_base base outputBufferStart sizeof uint8_t unsigned_type] in Hhdr.
  rewrite Hstart, Hlen1 in Hhdr. specialize (Hhdr ltac:(simpl; lia) ltac:(lia)).
  eexists. eexists. split.
  { unfold writePaddingAmount, bind, gets, inherited, zoom.
    rewrite Hlen. change (paddingAmount 4) with 3. rewrite Hpad, Hhdr.
    rewrite app_nil_r. reflexivity. }
  split; [reflexivity|]. split.
  { unfold addCryptoHeader, writeMessageLength, bind at 1, ret, bind, gets.
    rewrite (add_header_fits uint16_t)
      by (cbn [base buffer outputBufferStart sizeof uint16_t unsigned_type];
          unfold size in *; rewrite ?length_inserts; simpl; lia).
    reflexivity. }
  unfold frame.
  cbn [base buffer outputBufferStart info msg_length NetworkMessageInfo.length
       sizeof uint16_t uint8_t unsigned_type to_bytes].
  change (to_MsgSize_t (to_MsgSize_t (7 + Z.of_nat 1) + Z.of_nat 2)) with 10.
  change (7 - Z.of_nat 1 - Z.of_nat 2) with 4.
  change (Z.to_nat (7 - Z.of_nat 1)) with 6%nat.
  change (blockCount (to_MsgSize_t (7 + Z.of_nat 1))) with 0.
  rewrite read_span_Some by (unfold size in *; rewrite ?length_inserts; lia).
  f_equal. apply list_eq. intros i.
  change (Z.to_nat 4) with 4%nat. change (Z.to_nat 10) with 10%nat.
  change (Z.to_nat 7) with 7%nat in Hpay.
  destruct (Nat.lt_ge_cases i 10) as [Hi|Hi].
  - rewrite lookup_take_lt, lookup_drop by assumption.
    unfold size in Hin.
    destruct i as [|[|[|i]]].
    + rewrite list_lookup_inserts by (rewrite ?length_inserts; simpl; lia).
      reflexivity.
    + rewrite list_lookup_inserts by (rewrite ?length_inserts; simpl; lia).
      reflexivity.
    + rewrite list_lookup_inserts_ge by (simpl; lia).
      rewrite list_lookup_inserts by (simpl; lia). reflexivity.
    + rewrite !list_lookup_inserts_ge by (simpl; lia).
      change ((le_bytes 2 0 ++ le_bytes 1 3 ++ PING ++ fill) !! S (S (S i)))
        with ((PING ++ fill) !! i).
      rewrite Hpay. rewrite lookup_take_lt, lookup_drop by lia.
      f_equal.
  - rewrite lookup_take_ge by assumption. symmetry. apply lookup_ge_None.
    rewrite !length_app, Hfill. simpl. lia.
Qed.

(** C9: on a message that has just been reset, whose array has room for
    the two bytes at offsets 7 and 8, writing the [uint16_t] value 0x0102
    stores 0x02 at offset 7 and 0x01 at offset 8, and leaves length 2 and
    the cursor at 9. *)
Theorem add_uint16_little_endian (m m0 : NetworkMessage) :
  reset m = Done tt m0 [] ->
  9 <= size (buffer m) < 2 ^ 64 ->
  canAdd m0 (sizeof uint16_t) = true ->
  exists m1,
    add canAdd uint16_t 0x0102 m0 = Done tt m1 [TraceAdd] /\
    buffer m1 !! 7%nat = Some 0x02 /\
    buffer m1 !! 8%nat = Some 0x01 /\
    msg_length m1 = 2 /\
    msg_position m1 = 9.
Proof.
  intros [= <-] Hsize Hcan.
  eexists. split.
  { apply add_fits; [apply _| | |assumption];
      unfold well_formed, msg_position, msg_length; simpl;
      unfold INITIAL_BUFFER_POSITION; lia. }
  unfold size in Hsize. cbn [buffer].
  change (Z.to_nat (msg_position _)) with 7%nat.
  split; [|split; [|split; reflexivity]].
  - rewrite list_lookup_inserts by (simpl; lia). reflexivity.
  - rewrite list_lookup_inserts by (simpl; lia). reflexivity.
Qed.

(** C10: [reset] returns the bookkeeping to its defaults, length 0,
    position 7, overrun flag clear, and leaves the array as it was: the
    bytes of the previous payload are still where they were written. *)
Theorem reset_keeps_bytes (m : NetworkMessage) :
  exists m0,
    reset m = Done tt m0 [] /\
    msg_length m0 = 0 /\
    msg_position m0 = INITIAL_BUFFER_POSITION /\
    msg_overrun m0 = false /\
    buffer m0 = buffer m /\
    read_span (buffer m0) INITIAL_BUFFER_POSITION (msg_length m) = payload m.
Proof.
  eexists. split; [reflexivity|]. simpl. repeat split; reflexivity.
Qed.

End CodecProperties.

(** * The properties at concrete messages

    The checks and the padding writer are instantiated with the models
    taken from the spec, over small arrays. *)

Lemma get_insufficient_witness :
  canRead_spec edge_message (sizeof uint16_t) = false /\
  get canRead_spec uint16_t edge_message = Done 0 edge_message [].
Proof.
  split; [reflexivity|].
  apply (get_insufficient canRead_spec uint16_t edge_message). reflexivity.
Defined.

(** C1 as stated fails: one byte is left in the array of [edge_message],
    [get<uint16_t>] returns 0 there, and the overrun flag of the message is
    still clear afterwards. *)
Lemma get_at_edge_leaves_overrun_clear :
  ~ (size (buffer edge_message) - msg_position edge_message < sizeof uint16_t ->
     exists m' log,
       get canRead_spec uint16_t edge_message = Done (value_init uint16_t) m' log /\
       msg_overrun m' = true /\
       msg_position m' <= size (buffer m')).
Proof.
  intros Hclaim.
  destruct Hclaim as (m' & log & Hget & Hflag & _); [vm_compute; reflexivity|].
  vm_compute in Hget. injection Hget as <- _.
  discriminate Hflag.
Qed.

Lemma add_overflow_no_mutation_witness :
  size (buffer edge_message) - msg_position edge_message < sizeof uint16_t /\
  add canAdd_spec uint16_t 0x0102 edge_message =
    Done tt edge_message [ErrorCannotAdd 2 16].
Proof.
  split; [vm_compute; reflexivity|].
  apply (add_overflow_no_mutation canAdd_spec uint16_t 0x0102 edge_message).
  vm_compute; reflexivity.
Defined.

Lemma add_get_roundtrip_witness :
  representable uint16_t 0x0102 /\
  well_formed (NetworkMessage_new 16) /\
  canAdd_spec (NetworkMessage_new 16) (sizeof uint16_t) = true /\
  exists m1,
    add canAdd_spec uint16_t 0x0102 (NetworkMessage_new 16) = Done tt m1 [TraceAdd] /\
    msg_position m1 = 9 /\
    msg_length m1 = 2 /\
    get canRead_spec uint16_t (set_position 7 m1) = Done 0x0102 (set_position 9 m1) [].
Proof.
  assert (representable uint16_t 0x0102) as Hrep by (vm_compute; easy).
  assert (well_formed (NetworkMessage_new 16)) as Hwf by (vm_compute; easy).
  split; [exact Hrep|]. split; [exact Hwf|]. split; [reflexivity|].
  destruct (add_get_roundtrip canRead_spec canAdd_spec uint16_t 0x0102
              (NetworkMessage_new 16) Hrep Hwf)
    as (m1 & Hadd & Hpos & Hlen & _ & _ & Hget);
    [vm_compute; easy|reflexivity|].
  exists m1. split; [exact Hadd|]. split; [exact Hpos|]. split; [exact Hlen|].
  apply Hget. vm_compute in Hadd. injection Hadd as <-. reflexivity.
Defined.

Lemma writePaddingAmount_aligned_witness :
  addPaddingBytes_spec 51 3 (base ping_message) = Done tt padded_ping [] /\
  exists om',
    writePaddingAmount (addPaddingBytes_spec 51) ping_message = Done tt om' [] /\
    outputBufferStart om' = 6 /\
    buffer (base om') !! 6%nat = Some 3 /\
    msg_length (base om') mod 8 = 0.
Proof.
  split; [reflexivity|].
  destruct (writePaddingAmount_aligned (addPaddingBytes_spec 51)
              ping_message padded_ping [])
    as (_ & _ & om' & Hrun & Hstart & Hbyte & Hlen);
    [vm_compute; easy|reflexivity|reflexivity|vm_compute; easy|vm_compute; easy|].
  exists om'. split; [exact Hrun|]. split; [exact Hstart|].
  split; [|exact Hlen].
  rewrite Hstart in Hbyte. exact Hbyte.
Defined.

Lemma addCryptoHeader_headers_witness :
  well_formed_output ping_with_padding_count /\
  exists om',
    addCryptoHeader true 0xDEADBEEF ping_with_padding_count = Done tt om' [] /\
    outputBufferStart om' = 0 /\
    read_span (buffer (base om')) 0 2 = Some [1; 0] /\
    read_span (buffer (base om')) 2 4 = Some [0xEF; 0xBE; 0xAD; 0xDE] /\
    msg_length (base om') = 14.
Proof.
  assert (well_formed_output ping_with_padding_count) as Hwf by (vm_compute; easy).
  split; [exact Hwf|].
  destruct (addCryptoHeader_headers true 0xDEADBEEF ping_with_padding_count Hwf)
    as (om' & Hrun & Hstart & Hcount & Hsum & Hlen & _);
    [vm_compute; easy|vm_compute; easy|].
  exists om'. split; [exact Hrun|].
  cbv zeta in Hstart, Hcount, Hsum, Hlen.
  split; [exact Hstart|]. rewrite Hstart in Hcount, Hsum.
  split; [exact Hcount|]. split; [exact Hsum|exact Hlen].
Defined.

Lemma outputBufferStart_invariant_witness :
  reachable 32 (addPaddingBytes_spec 51) padded_empty /\
  0 <= outputBufferStart padded_empty <= 7 /\
  add_header uint64_t 0 padded_empty = Done tt padded_empty [ErrorHeaderSpace] /\
  (exists om',
     append (base ping_message) padded_empty = Done tt om' [] /\
     outputBufferStart om' = 6) /\
  (exists om',
     append_ptr ping_message padded_empty = Done tt om' [] /\
     outputBufferStart om' = 6) /\
  (exists om',
     inherited (add canAdd_spec uint16_t 0x0102) padded_empty = Done tt om' [TraceAdd] /\
     outputBufferStart om' = 6) /\
  (exists om',
     addCryptoHeader true 0xDEADBEEF padded_empty = Done tt om' [] /\
     outputBufferStart om' = 0).
Proof.
  assert (reachable 32 (addPaddingBytes_spec 51) padded_empty) as Hreach.
  { apply (reachable_step 32 (addPaddingBytes_spec 51) (OutputMessage_new 32));
      [apply reachable_new|].
    apply (step_writePaddingAmount (addPaddingBytes_spec 51) _ _ []). reflexivity. }
  split; [exact Hreach|].
  destruct (outputBufferStart_invariant 32 (addPaddingBytes_spec 51) padded_empty Hreach)
    as (_ & Hrange & _ & _ & Hreject & Hinherited & Happend & Hptr & _ & _ & Hcrypto).
  split; [exact Hrange|].
  split; [apply Hreject; vm_compute; reflexivity|].
  split; [|split; [|split]].
  - eexists. split; [vm_compute; reflexivity|].
    apply (Happend (base ping_message) _ []). vm_compute; reflexivity.
  - eexists. split; [vm_compute; reflexivity|].
    apply (Hptr ping_message _ []). vm_compute; reflexivity.
  - eexists. split; [vm_compute; reflexivity|].
    apply (Hinherited unit (add canAdd_spec uint16_t 0x0102) tt _ [TraceAdd]).
    vm_compute; reflexivity.
  - eexists. split; [vm_compute; reflexivity|].
    apply (Hcrypto true 0xDEADBEEF _ []). vm_compute; reflexivity.
Defined.

Lemma append_copies_payload_witness :
  well_formed (base ping_message) /\
  addCryptoHeader true 0xDEADBEEF ping_with_padding_count = Done tt finalized_ping [] /\
  exists A',
    append (base finalized_ping) ping_message = Done tt A' [] /\
    append_ptr finalized_ping ping_message = Done tt A' [] /\
    read_span (buffer (base A')) 11 14 =
      Some (PING ++ [51; 51; 51] ++ replicate 7 0) /\
    read_span (buffer (base A')) 0 11 = Some (replicate 7 0 ++ PING) /\
    msg_length (base A') = 18 /\
    msg_position (base A') = 25.
Proof.
  assert (well_formed (base ping_message)) as Hwf by (vm_compute; easy).
  split; [exact Hwf|]. split; [reflexivity|].
  destruct (append_copies_payload (base finalized_ping) ping_message Hwf)
    as (A' & bytes & Hrun & Hptr & Hpayload & Hcopy & Hframe & Hsize & Hlen & Hpos & _);
    [vm_compute; easy|vm_compute; easy|vm_compute; easy|].
  exists A'. split; [exact Hrun|]. split; [exact (Hptr finalized_ping eq_refl)|].
  vm_compute in Hpayload. injection Hpayload as <-.
  split; [exact Hcopy|]. split; [|split; [exact Hlen|exact Hpos]].
  rewrite (read_span_ext (buffer (base A')) (buffer (base ping_message)) 0 11).
  - reflexivity.
  - exact Hsize.
  - intros i Hi. apply Hframe. left.
    change (msg_position (base ping_message)) with 11. lia.
Defined.

Lemma ping_frame_witness :
  payload (base ping_message) = Some PING /\
  addPaddingBytes_spec 51 3 (base ping_message) = Done tt padded_ping [] /\
  exists om1 om2,
    writePaddingAmount (addPaddingBytes_spec 51) ping_message = Done tt om1 [] /\
    msg_length (base om1) = 8 /\
    addCryptoHeader false 0 om1 = Done tt om2 [] /\
    frame om2 = Some [0; 0; 3; 80; 73; 78; 71; 51; 51; 51].
Proof.
  split; [reflexivity|]. split; [reflexivity|].
  destruct (ping_frame (addPaddingBytes_spec 51) ping_message padded_ping []
              [51; 51; 51] 0)
    as (_ & _ & om1 & om2 & Hpad & Hlen & Hcrypto & Hframe);
    [reflexivity|reflexivity|reflexivity|reflexivity|reflexivity|reflexivity|].
  exists om1, om2. split; [exact Hpad|]. split; [exact Hlen|].
  split; [exact Hcrypto|exact Hframe].
Defined.

Lemma add_uint16_little_endian_witness :
  reset used_message =
    Done tt {| info := NetworkMessageInfo.default; buffer := buffer used_message |} [] /\
  exists m1,
    add canAdd_spec uint16_t 0x0102
      {| info := NetworkMessageInfo.default; buffer := buffer used_message |} =
      Done tt m1 [TraceAdd] /\
    buffer m1 !! 7%nat = Some 0x02 /\
    buffer m1 !! 8%nat = Some 0x01 /\
    msg_length m1 = 2.
Proof.
  split; [reflexivity|].
  destruct (add_uint16_little_endian canAdd_spec used_message
              {| info := NetworkMessageInfo.default; buffer := buffer used_message |})
    as (m1 & Hadd & H7 & H8 & Hlen & _);
    [reflexivity|vm_compute; easy|reflexivity|].
  exists m1. split; [exact Hadd|]. split; [exact H7|]. split; [exact H8|exact Hlen].
Defined.

(** * Further properties *)

(** ** PropStream: reading from a byte stream *)

Lemma stream_size (s : PropStream.t) :
  stream_ok s -> PropStream.size s = PropStream.end_ s - PropStream.p s.
Proof.
  intros (Hp & Hend & Hmem). unfold PropStream.size, to_size_t, wrap.
  apply Z.mod_small. pose proof (size_nonneg (PropStream.memory s)). lia.
Qed.

Lemma unread_size (s : PropStream.t) :
  stream_ok s -> size (unread s) = PropStream.end_ s - PropStream.p s.
Proof.
  intros (Hp & Hend & Hmem). unfold unread, size in *.
  rewrite length_take, length_drop. lia.
Qed.

Lemma take_unread (s : PropStream.t) (n : Z) :
  n <= PropStream.end_ s - PropStream.p s ->
  take (Z.to_nat n) (unread s) =
  take (Z.to_nat n) (drop (Z.to_nat (PropStream.p s)) (PropStream.memory s)).
Proof.
  intros Hn. unfold unread. rewrite take_take. f_equal. lia.
Qed.

Lemma stream_ok_set_p (s : PropStream.t) (n : Z) :
  stream_ok s -> 0 <= n <= PropStream.end_ s - PropStream.p s ->
  stream_ok (PropStream.set_p (PropStream.p s + n) s).
Proof.
  intros (Hp & Hend & Hmem) Hn. unfold stream_ok. simpl. lia.
Qed.

Lemma unread_set_p (s : PropStream.t) (n : Z) :
  stream_ok s -> 0 <= n <= PropStream.end_ s - PropStream.p s ->
  unread (PropStream.set_p (PropStream.p s + n) s) = drop (Z.to_nat n) (unread s).
Proof.
  intros (Hp & Hend & Hmem) Hn. unfold unread. simpl.
  rewrite skipn_firstn_comm, drop_drop. f_equal; [lia|]. f_equal. lia.
Qed.

(** A read for which enough bytes are left. *)
Lemma read_enough (T : CType) (result : carrier T) (s : PropStream.t) :
  stream_ok s ->
  0 <= sizeof T <= PropStream.end_ s - PropStream.p s ->
  PropStream.read T result s =
    Done (true, of_bytes T (take (Z.to_nat (sizeof T)) (unread s)))
      (PropStream.set_p (PropStream.p s + sizeof T) s) [].
Proof.
  intros Hok Hn. unfold PropStream.read, bind, gets, modify, ret.
  rewrite (stream_size s Hok).
  destruct (Z.ltb_spec (PropStream.end_ s - PropStream.p s) (sizeof T)); [lia|].
  destruct Hok as (Hp & Hend & Hmem).
  rewrite read_span_Some by lia. simpl.
  now rewrite take_unread by lia.
Qed.

(** A read for which too few bytes are left. *)
Lemma read_short (T : CType) (result : carrier T) (s : PropStream.t) :
  PropStream.size s < sizeof T ->
  PropStream.read T result s = Done (false, result) s [].
Proof.
  intros Hn. unfold PropStream.read, bind, gets, ret.
  destruct (Z.ltb_spec (PropStream.size s) (sizeof T)); [reflexivity|lia].
Qed.

(** Reading back the bytes of a value. *)
Lemma read_written (T : CType) `{!TriviallyCopyable T}
    (v result : carrier T) (rest : list Z) (s : PropStream.t) :
  stream_ok s -> representable T v ->
  unread s = to_bytes T v ++ rest ->
  PropStream.read T result s =
    Done (true, v) (PropStream.set_p (PropStream.p s + sizeof T) s) [] /\
  stream_ok (PropStream.set_p (PropStream.p s + sizeof T) s) /\
  unread (PropStream.set_p (PropStream.p s + sizeof T) s) = rest.
Proof.
  intros Hok Hrep Hbytes.
  pose proof (to_bytes_size v) as Hsz.
  pose proof (unread_size s Hok) as Hlen.
  rewrite Hbytes in Hlen. unfold size in Hlen. rewrite length_app in Hlen.
  assert (0 <= sizeof T <= PropStream.end_ s - PropStream.p s) as Hn by lia.
  split; [|split].
  - rewrite read_enough by assumption. rewrite Hbytes.
    rewrite take_app_length' by lia. now rewrite of_to_bytes.
  - now apply stream_ok_set_p.
  - rewrite unread_set_p, Hbytes by assumption.
    apply drop_app_length'. lia.
Qed.

(** X13: [read<T>] never reaches outside the array of a well-formed stream
    and logs nothing. It succeeds exactly when [sizeof(T)] bytes are left;
    then it returns the value of the next [sizeof(T)] bytes and these
    bytes are consumed. Otherwise it returns false and leaves both the
    stream and [ret] as they were. *)
Theorem PropStream_read_spec (T : CType) `{!TriviallyCopyable T}
    (result : carrier T) (s : PropStream.t) :
  stream_ok s ->
  exists r s',
    PropStream.read T result s = Done r s' [] /\
    stream_ok s' /\
    if sizeof T <=? size (unread s)
    then r = (true, of_bytes T (take (Z.to_nat (sizeof T)) (unread s))) /\
         unread s' = drop (Z.to_nat (sizeof T)) (unread s)
    else r = (false, result) /\ s' = s.
Proof.
  intros Hok. pose proof (sizeof_nonneg T) as Hnn.
  rewrite (unread_size s Hok).
  destruct (Z.leb_spec (sizeof T) (PropStream.end_ s - PropStream.p s)) as [Hle|Hgt].
  - do 2 eexists. split; [apply read_enough; [assumption|lia]|].
    split; [apply stream_ok_set_p; [assumption|lia]|].
    split; [reflexivity|]. apply unread_set_p; [assumption|lia].
  - exists (false, result), s. split; [|auto].
    apply read_short. rewrite stream_size by assumption. lia.
Qed.

(** X14: [skip(n)] succeeds exactly when [n] bytes are left and then
    consumes them; otherwise it returns false and leaves the stream as it
    was. It never moves a pointer outside the array. *)
Theorem PropStream_skip_spec (n : Z) (s : PropStream.t) :
  stream_ok s -> 0 <= n ->
  exists r s',
    PropStream.skip n s = Done r s' [] /\
    stream_ok s' /\
    if n <=? size (unread s)
    then r = true /\ unread s' = drop (Z.to_nat n) (unread s)
    else r = false /\ s' = s.
Proof.
  intros Hok Hn. rewrite (unread_size s Hok).
  unfold PropStream.skip, bind, gets, modify, ret.
  rewrite (stream_size s Hok).
  destruct (Z.leb_spec n (PropStream.end_ s - PropStream.p s)) as [Hle|Hgt].
  - destruct (Z.ltb_spec (PropStream.end_ s - PropStream.p s) n); [lia|].
    do 2 eexists. split; [reflexivity|].
    split; [apply stream_ok_set_p; [assumption|lia]|].
    split; [reflexivity|]. apply unread_set_p; [assumption|lia].
  - destruct (Z.ltb_spec (PropStream.end_ s - PropStream.p s) n); [|lia].
    exists false, s. auto.
Qed.

Lemma le_value_range (bs : list Z) :
  Forall is_byte bs -> 0 <= le_value bs < 256 ^ Z.of_nat (length bs).
Proof.
  induction 1 as [|b bs Hb Hbs IH].
  - simpl. lia.
  - cbn [le_value length]. rewrite Nat2Z.inj_succ, Z.pow_succ_r by lia.
    unfold is_byte in Hb. lia.
Qed.

Lemma unread_bytes (s : PropStream.t) :
  Forall is_byte (PropStream.memory s) -> Forall is_byte (unread s).
Proof.
  intros Hbytes. unfold unread. now apply Forall_take, Forall_drop.
Qed.

(** X15: [readString] never reaches outside the array of a well-formed
    stream over bytes. With fewer than two bytes left it fails and changes nothing.
    With a length prefix [n] followed by at least [n] bytes it returns
    these [n] bytes and consumes prefix and string. With a prefix
    followed by fewer than [n] bytes it fails and leaves [ret] alone, but
    the two bytes of the prefix have been consumed. *)
Theorem PropStream_readString_spec (result : list Z) (s : PropStream.t) :
  stream_ok s ->
  Forall is_byte (PropStream.memory s) ->
  exists r s',
    PropStream.readString result s = Done r s' [] /\
    stream_ok s' /\
    (size (unread s) < 2 -> r = (false, result) /\ s' = s) /\
    (forall n body,
       0 <= n < 2 ^ 16 ->
       unread s = to_bytes uint16_t n ++ body ->
       if n <=? size body
       then r = (true, take (Z.to_nat n) body) /\
            unread s' = drop (Z.to_nat n) body
       else r = (false, result) /\ unread s' = body).
Proof.
  intros Hok Hmembytes. pose proof (unread_size s Hok) as Hlen.
  unfold PropStream.readString, bind at 1.
  destruct (Z.lt_ge_cases (PropStream.end_ s - PropStream.p s) 2) as [Hshort|Hlong].
  - rewrite read_short by (rewrite stream_size by assumption; simpl; lia).
    exists (false, result), s. simpl.
    split; [reflexivity|]. split; [assumption|]. split; [auto|].
    intros n body Hn Hbytes. rewrite Hbytes in Hlen.
    unfold size in Hlen. simpl in Hlen. lia.
  - rewrite read_enough by (assumption || (simpl; lia)).
    change (sizeof uint16_t) with 2.
    set (s1 := PropStream.set_p (PropStream.p s + 2) s).
    set (strLen := of_bytes uint16_t (take (Z.to_nat 2) (unread s))).
    assert (stream_ok s1) as Hok1 by (apply stream_ok_set_p; [assumption|lia]).
    assert (unread s1 = drop 2 (unread s)) as Hun1
        by (apply (unread_set_p s 2); [assumption|lia]).
    assert (0 <= strLen < 2 ^ 16) as Hstr.
    { pose proof (le_value_range (take (Z.to_nat 2) (unread s))) as Hr.
      rewrite length_take in Hr. unfold size in Hlen.
      replace (Z.to_nat 2 `min` length (unread s))%nat with 2%nat in Hr by lia.
      apply Hr. apply Forall_take. now apply unread_bytes. }
    cbn [fst snd negb]. unfold bind, gets, modify, ret.
    rewrite (stream_size s1 Hok1).
    assert (PropStream.end_ s1 - PropStream.p s1 =
            PropStream.end_ s - PropStream.p s - 2) as Hrem by (simpl; lia).
    assert (forall n body, 0 <= n < 2 ^ 16 ->
              unread s = to_bytes uint16_t n ++ body ->
              strLen = n /\ unread s1 = body /\
              size body = PropStream.end_ s - PropStream.p s - 2) as Hview.
    { intros n body Hn Hbytes. rewrite Hun1. unfold strLen. rewrite Hbytes.
      split; [|split].
      - rewrite take_app_length' by reflexivity.
        apply (of_to_bytes (T := uint16_t)). simpl. lia.
      - now apply drop_app_length'.
      - rewrite Hbytes in Hlen. unfold size in *. rewrite length_app in Hlen.
        simpl in Hlen. lia. }
    destruct (Z.ltb_spec (PropStream.end_ s1 - PropStream.p s1) strLen) as [Hlt|Hge].
    + exists (false, result), s1. split; [reflexivity|]. split; [assumption|].
      split; [lia|].
      intros n body Hn Hbytes.
      destruct (Hview n body Hn Hbytes) as (-> & -> & Hsz).
      destruct (Z.leb_spec n (size body)); [lia|auto].
    + pose proof Hok1 as (Hp1 & Hend1 & Hmem1).
      rewrite read_span_Some by lia. simpl app.
      do 2 eexists. split; [reflexivity|].
      split; [apply stream_ok_set_p; [assumption|lia]|].
      split; [lia|].
      intros n body Hn Hbytes.
      destruct (Hview n body Hn Hbytes) as (Hstrn & Hbody & Hsz).
      destruct (Z.leb_spec n (size body)); [|lia].
      split.
      * f_equal. rewrite <- Hstrn, <- Hbody.
        symmetry. apply take_unread. lia.
      * rewrite <- Hstrn, <- Hbody.
        apply unread_set_p; [assumption|lia].
Qed.

(** ** PropWriteStream and the way back *)

Lemma bytes_of_cons (v : TypedValue) (vs : list TypedValue) :
  bytes_of (v :: vs) = to_bytes (tv_type v) (tv_value v) ++ bytes_of vs.
Proof. reflexivity. Qed.

Lemma write_all_buffer (vs : list TypedValue) (w : PropWriteStream.t) :
  write_all vs w =
    Done tt {| PropWriteStream.buffer := PropWriteStream.buffer w ++ bytes_of vs |} [].
Proof.
  revert w. induction vs as [|v vs IH]; intros w.
  - destruct w. simpl. unfold ret. now rewrite app_nil_r.
  - cbn [write_all]. unfold bind, PropWriteStream.write, modify.
    rewrite IH. simpl. now rewrite bytes_of_cons, app_assoc.
Qed.

Lemma init_stream (a : list Z) (s0 : PropStream.t) :
  size a < 2 ^ 64 ->
  exists s,
    PropStream.init a (size a) s0 = Done tt s [] /\
    stream_ok s /\ unread s = a.
Proof.
  intros Ha. eexists. split; [reflexivity|]. split.
  - unfold stream_ok. simpl. pose proof (size_nonneg a). lia.
  - unfold unread, size. simpl.
    replace (Z.to_nat (0 + Z.of_nat (length a) - 0)) with (length a) by lia.
    apply firstn_all.
Qed.

Lemma read_all_written (vs : list TypedValue) (rest : list Z) (s : PropStream.t) :
  stream_ok s ->
  Forall valid_value vs ->
  unread s = bytes_of vs ++ rest ->
  exists s',
    read_all (map tv_type vs) s = Done (true, vs) s' [] /\
    stream_ok s' /\ unread s' = rest.
Proof.
  intros Hok Hvalid. revert s Hok.
  induction Hvalid as [|v vs [HT Hrep] Hvs IH]; intros s Hok Hbytes.
  - exists s. auto.
  - rewrite bytes_of_cons, <- app_assoc in Hbytes.
    destruct (read_written (tv_type v) (tv_value v) (value_init (tv_type v))
                (bytes_of vs ++ rest) s Hok Hrep Hbytes) as (Hread & Hok1 & Hun1).
    destruct (IH _ Hok1 Hun1) as (s' & Hrun & Hok' & Hun').
    exists s'. split; [|auto].
    cbn [read_all map]. unfold bind at 1. rewrite Hread. cbn [fst snd].
    unfold bind, ret. rewrite Hrun. destruct v. reflexivity.
Qed.

Lemma readString_written (str rest result : list Z) (s : PropStream.t) :
  stream_ok s ->
  size str < 2 ^ 16 ->
  unread s = to_bytes uint16_t (size str) ++ str ++ rest ->
  exists s',
    PropStream.readString result s = Done (true, str) s' [] /\
    stream_ok s' /\ unread s' = rest.
Proof.
  intros Hok Hlen Hbytes. pose proof (size_nonneg str) as Hnn.
  destruct (read_written uint16_t (size str) 0 (str ++ rest) s Hok) as (Hread & Hok1 & Hun1);
    [simpl; lia|assumption|].
  set (s1 := PropStream.set_p _ s) in *.
  pose proof (unread_size s1 Hok1) as Hsz1. rewrite Hun1 in Hsz1.
  unfold size in Hsz1 at 1. rewrite length_app, Nat2Z.inj_add in Hsz1.
  fold (size str) (size rest) in Hsz1. pose proof (size_nonneg rest) as Hrest.
  unfold PropStream.readString, bind at 1. rewrite Hread. cbn [fst snd negb].
  unfold bind, gets, modify, ret. rewrite (stream_size s1 Hok1).
  destruct (Z.ltb_spec (PropStream.end_ s1 - PropStream.p s1) (size str)); [lia|].
  pose proof Hok1 as (Hp1 & Hend1 & Hmem1).
  rewrite read_span_Some by lia. simpl app.
  eexists. split; [|split].
  - f_equal. f_equal. rewrite <- take_unread by lia. rewrite Hun1.
    apply take_app_length'. unfold size. lia.
  - apply stream_ok_set_p; [assumption|lia].
  - rewrite unread_set_p, Hun1 by (assumption || lia).
    apply drop_app_length'. unfold size. lia.
Qed.

(** X16: what [write<T>] appends in a run of writes, a [PropStream]
    initialised on the data and size given by [getStream] reads back value
    by value with [read<T>], and nothing is left afterwards. *)
Theorem write_all_read_all_roundtrip (vs : list TypedValue) :
  Forall valid_value vs ->
  size (bytes_of vs) < 2 ^ 64 ->
  exists w s s',
    write_all vs PropWriteStream.default = Done tt w [] /\
    PropStream.init (fst (PropWriteStream.getStream w))
      (snd (PropWriteStream.getStream w)) PropStream.default = Done tt s [] /\
    read_all (map tv_type vs) s = Done (true, vs) s' [] /\
    PropStream.size s' = 0.
Proof.
  intros Hvalid Hsize.
  destruct (init_stream (bytes_of vs) PropStream.default Hsize) as (s & Hinit & Hok & Hun).
  destruct (read_all_written vs [] s Hok Hvalid) as (s' & Hrun & Hok' & Hun');
    [now rewrite app_nil_r|].
  eexists. exists s, s'. split; [apply write_all_buffer|].
  split; [exact Hinit|]. split; [exact Hrun|].
  rewrite stream_size by assumption. rewrite <- unread_size by assumption.
  now rewrite Hun'.
Qed.

(** X17: a string of at most 65535 bytes written by [writeString] is read
    back by [readString] from the stream that [getStream] gives, and
    nothing is left. A longer string is not written at all: only a zero
    length goes out, and [readString] reads back the empty string. *)
Theorem writeString_readString_roundtrip (str result : list Z) :
  exists w s s',
    PropWriteStream.writeString str PropWriteStream.default = Done tt w [] /\
    PropWriteStream.buffer w =
      (if size str <=? 65535 then to_bytes uint16_t (size str) ++ str
       else to_bytes uint16_t 0) /\
    PropStream.init (fst (PropWriteStream.getStream w))
      (snd (PropWriteStream.getStream w)) PropStream.default = Done tt s [] /\
    PropStream.readString result s =
      Done (true, if size str <=? 65535 then str else []) s' [] /\
    PropStream.size s' = 0.
Proof.
  pose proof (size_nonneg str) as Hnn.
  unfold PropWriteStream.writeString. fold (size str). rewrite Z.gtb_ltb.
  destruct (Z.leb_spec (size str) 65535) as [Hle|Hgt].
  - destruct (Z.ltb_spec 65535 (size str)); [lia|].
    assert (to_uint16_t (size str) = size str) as Hcast
        by (unfold to_uint16_t, wrap; apply Z.mod_small; lia).
    rewrite Hcast.
    set (data := to_bytes uint16_t (size str) ++ str).
    assert (size data < 2 ^ 64) as Hdata
        by (unfold data, size; rewrite length_app; unfold size in Hle; simpl; lia).
    destruct (init_stream data PropStream.default Hdata) as (s & Hinit & Hok & Hun).
    destruct (readString_written str [] result s Hok) as (s' & Hrun & Hok' & Hun');
      [lia|now rewrite app_nil_r|].
    exists {| PropWriteStream.buffer := data |}, s, s'.
    split; [reflexivity|]. split; [reflexivity|]. split; [exact Hinit|].
    split; [exact Hrun|].
    rewrite stream_size by assumption. rewrite <- unread_size by assumption.
    now rewrite Hun'.
  - destruct (Z.ltb_spec 65535 (size str)); [|lia].
    do 3 eexists. split; [reflexivity|]. split; [reflexivity|].
    split; [reflexivity|]. split; reflexivity.
Qed.

(** ** More on the generic reader and writer *)

Lemma read_span_None (buf : list Z) (pos n : Z) :
  0 <= pos -> 0 <= n -> size buf < pos + n -> read_span buf pos n = None.
Proof.
  intros H0 H1 H2. unfold read_span.
  destruct (Z.leb_spec 0 pos); [|lia].
  destruct (Z.leb_spec 0 n); [|lia].
  destruct (Z.leb_spec (pos + n) (size buf)); [lia|reflexivity].
Qed.

(** A span read in two parts. *)
Lemma read_span_split (buf x y : list Z) (pos n1 n2 : Z) :
  read_span buf pos n1 = Some x ->
  read_span buf (pos + n1) n2 = Some y ->
  read_span buf pos (n1 + n2) = Some (x ++ y).
Proof.
  intros (H0 & H1 & H2 & ->)%read_span_inv (_ & H3 & H4 & ->)%read_span_inv.
  rewrite read_span_Some by lia. f_equal.
  replace (Z.to_nat (pos + n1)) with (Z.to_nat pos + Z.to_nat n1)%nat by lia.
  rewrite <- drop_drop, take_take_drop. f_equal. lia.
Qed.

Section MoreCodecProperties.

#[local] Set Default Proof Using "Type".

Variable canRead : NetworkMessage -> Z -> bool.
Variable canAdd : NetworkMessage -> Z -> bool.
Variable addPaddingBytes : Z -> M NetworkMessage unit.

(** The two ways [add<T>] can end on a well-formed message. *)
Lemma add_cases (T : CType) `{!TriviallyCopyable T} (value : carrier T) (m : NetworkMessage) :
  well_formed m ->
  (msg_position m + sizeof T <= size (buffer m) /\
   add canAdd T value m =
     Done tt
       {| info := {| NetworkMessageInfo.length := to_MsgSize_t (msg_length m + sizeof T);
                     NetworkMessageInfo.position := to_MsgSize_t (msg_position m + sizeof T);
                     NetworkMessageInfo.overrun := msg_overrun m |};
          buffer := list_inserts (Z.to_nat (msg_position m)) (to_bytes T value) (buffer m) |}
       [TraceAdd]) \/
  (exists e, e <> TraceAdd /\ add canAdd T value m = Done tt m [e]).
Proof.
  intros Hwf.
  destruct (canAdd m (sizeof T)) eqn:Hcan.
  - destruct (Z.le_gt_cases (msg_position m + sizeof T) (size (buffer m))) as [Hfit|Hover].
    + left. split; [assumption|]. now apply add_fits.
    + right. exists (ErrorBufferOverflow (msg_position m) (sizeof T) (size (buffer m))).
      split; [discriminate|]. run. rewrite Hcan. simpl. rewrite Z.gtb_ltb.
      destruct (Z.ltb_spec (size (buffer m)) (msg_position m + sizeof T));
        [reflexivity|lia].
  - right. exists (ErrorCannotAdd (sizeof T) (size (buffer m))).
    split; [discriminate|]. run. now rewrite Hcan.
Qed.

(** X1: [get<T>] logs nothing and changes neither a byte of the array, nor
    the length, nor the overrun flag. Either [canRead] refused, and the
    message is as it was and the value is [T()]; or the value is the one
    of the [sizeof(T)] bytes at the cursor and the cursor has moved past
    them. *)
Theorem get_moves_only_cursor (T : CType) (m m' : NetworkMessage) (v : carrier T) log :
  get canRead T m = Done v m' log ->
  log = [] /\
  buffer m' = buffer m /\
  msg_length m' = msg_length m /\
  msg_overrun m' = msg_overrun m /\
  ((canRead m (sizeof T) = false /\ v = value_init T /\ m' = m) \/
   (canRead m (sizeof T) = true /\
    exists bytes,
      read_span (buffer m) (msg_position m) (sizeof T) = Some bytes /\
      v = of_bytes T bytes /\
      msg_position m' = to_MsgSize_t (msg_position m + sizeof T))).
Proof.
  run. destruct (canRead m (sizeof T)); simpl.
  - destruct (read_span (buffer m) (msg_position m) (sizeof T)) as [bytes|] eqn:Hspan;
      simpl; [|discriminate].
    intros [= <- <- <-]. repeat split; try reflexivity.
    right. split; [reflexivity|]. exists bytes. auto.
  - intros [= <- <- <-]. repeat split; try reflexivity. left. auto.
Qed.

(** X2: [get<T>] has no bounds check of its own against the array: it
    reads outside the array exactly when [canRead] accepts a read that
    does not fit between the cursor and the end of the array. *)
Theorem get_out_of_range (T : CType) `{!TriviallyCopyable T} (m : NetworkMessage) :
  well_formed m ->
  get canRead T m = Undefined <->
  canRead m (sizeof T) = true /\ size (buffer m) < msg_position m + sizeof T.
Proof.
  intros (Hlen & Hpos & Hsize). pose proof (sizeof_nonneg T) as Hnn. run.
  destruct (canRead m (sizeof T)); simpl.
  - destruct (Z.le_gt_cases (msg_position m + sizeof T) (size (buffer m))) as [Hfit|Hover].
    + rewrite read_span_Some by lia. simpl. split; [discriminate|lia].
    + rewrite read_span_None by lia. simpl. split; auto.
  - split; [discriminate|]. intros [? _]. discriminate.
Qed.

(** X3: [add<T>] checks the array bounds itself, whatever [canAdd] answers:
    on a well-formed message it never writes outside the array. The array
    keeps its size, no byte outside the [sizeof(T)] bytes at the cursor
    changes, the overrun flag is not touched, and either the value was
    written with only the trace line logged, or the message is exactly as
    it was and one error was logged. *)
Theorem add_never_out_of_range (T : CType) `{!TriviallyCopyable T}
    (value : carrier T) (m : NetworkMessage) :
  well_formed m ->
  exists m' log,
    add canAdd T value m = Done tt m' log /\
    size (buffer m') = size (buffer m) /\
    msg_overrun m' = msg_overrun m /\
    (forall i : nat,
       Z.of_nat i < msg_position m \/ msg_position m + sizeof T <= Z.of_nat i ->
       buffer m' !! i = buffer m !! i) /\
    ((log = [TraceAdd] /\
      read_span (buffer m') (msg_position m) (sizeof T) = Some (to_bytes T value)) \/
     (m' = m /\ exists e, e <> TraceAdd /\ log = [e])).
Proof.
  intros Hwf. pose proof (to_bytes_size value) as Hsz.
  fold (size (to_bytes T value)) in Hsz.
  destruct (add_cases T value m Hwf) as [[Hfit Hrun]|(e & He & Hrun)].
  - destruct Hwf as (Hlen & Hpos & Hsize).
    do 2 eexists. split; [exact Hrun|]. cbn [buffer msg_overrun info NetworkMessageInfo.overrun].
    split; [unfold size; now rewrite length_inserts|].
    split; [reflexivity|]. split.
    + intros i Hi. unfold size in Hsz. destruct Hi.
      * apply list_lookup_inserts_lt. lia.
      * apply list_lookup_inserts_ge. lia.
    + left. split; [reflexivity|]. apply read_inserts; lia.
  - exists m, [e]. split; [exact Hrun|]. repeat split; try reflexivity.
    right. split; [reflexivity|]. exists e. auto.
Qed.

(** ** Runs of writes and reads on one message *)

Lemma size_app (x y : list Z) : size (x ++ y) = size x + size y.
Proof. unfold size. rewrite length_app. lia. Qed.

Lemma to_MsgSize_t_add_l (a b : Z) :
  to_MsgSize_t (to_MsgSize_t a + b) = to_MsgSize_t (a + b).
Proof. unfold to_MsgSize_t, wrap. apply Zplus_mod_idemp_l. Qed.

(** A span that holds [x ++ y] holds [x], then [y]. *)
Lemma read_span_app_inv (buf x y : list Z) (pos : Z) :
  read_span buf pos (size (x ++ y)) = Some (x ++ y) ->
  read_span buf pos (size x) = Some x /\
  read_span buf (pos + size x) (size y) = Some y.
Proof.
  intros (H0 & H1 & H2 & Heq)%read_span_inv.
  pose proof (size_nonneg x). pose proof (size_nonneg y).
  rewrite size_app in *.
  rewrite !read_span_Some by lia.
  unfold size in *. rewrite !Nat2Z.id.
  replace (Z.to_nat (Z.of_nat (length x) + Z.of_nat (length y)))
    with (length x + length y)%nat in Heq by lia.
  split; f_equal.
  - transitivity (take (length x) (x ++ y)); [|apply take_app_length].
    rewrite Heq, take_take. f_equal. lia.
  - replace (Z.to_nat (pos + Z.of_nat (length x)))
      with (Z.to_nat pos + length x)%nat by lia.
    rewrite <- drop_drop.
    transitivity (drop (length x) (x ++ y)); [|apply drop_app_length].
    rewrite Heq, skipn_firstn_comm. f_equal. lia.
Qed.

(** A run of writes none of which logged an error has written the values
    one after the other from the cursor on. *)
Lemma add_all_written (vs : list TypedValue) :
  Forall (fun v => TriviallyCopyable (tv_type v)) vs ->
  forall (m m' : NetworkMessage) log,
    well_formed m ->
    msg_position m <= size (buffer m) < 2 ^ 16 ->
    add_all canAdd vs m = Done tt m' log ->
    log = replicate (length vs) TraceAdd ->
    msg_position m + size (bytes_of vs) <= size (buffer m) /\
    m' = {| info := {| NetworkMessageInfo.length :=
                         to_MsgSize_t (msg_length m + size (bytes_of vs));
                       NetworkMessageInfo.position :=
                         msg_position m + size (bytes_of vs);
                       NetworkMessageInfo.overrun := msg_overrun m |};
            buffer := list_inserts (Z.to_nat (msg_position m)) (bytes_of vs) (buffer m) |}.
Proof.
  induction 1 as [|v vs HT Hvs IH]; intros m m' log Hwf Hsmall Hrun Hlog.
  - injection Hrun as <- _. destruct Hwf as (Hlen & Hpos & Hsize).
    change (size (bytes_of [])) with 0. rewrite !Z.add_0_r.
    split; [lia|]. unfold to_MsgSize_t, wrap. rewrite Z.mod_small by assumption.
    destruct m as [[l p o] b]. reflexivity.
  - cbn [add_all] in Hrun.
    apply bind_Done in Hrun as ([] & m1 & log1 & log2 & Hadd & Hrest & ->).
    pose proof (to_bytes_size (tv_value v)) as Hsz.
    fold (size (to_bytes (tv_type v) (tv_value v))) in Hsz.
    pose proof (sizeof_nonneg (tv_type v)) as Hnn.
    destruct (add_cases (tv_type v) (tv_value v) m Hwf) as [[Hfit Hrun1]|(e & He & Hrun1)];
      rewrite Hrun1 in Hadd; injection Hadd as <- <-.
    + injection Hlog as Hlog.
      pose proof Hwf as (Hlen & Hpos & Hsize).
      assert (to_MsgSize_t (msg_position m + sizeof (tv_type v)) =
              msg_position m + sizeof (tv_type v)) as Hp
          by (unfold to_MsgSize_t, wrap; apply Z.mod_small; lia).
      rewrite Hp in Hrest.
      apply IH in Hrest as [Hfits ->]; [| |cbn|assumption].
      * cbn [msg_position msg_length msg_overrun info buffer
             NetworkMessageInfo.position NetworkMessageInfo.length
             NetworkMessageInfo.overrun] in *.
        unfold size in Hfits at 2. rewrite length_inserts in Hfits.
        fold (size (buffer m)) in Hfits.
        rewrite bytes_of_cons, size_app, Hsz.
        split; [lia|]. rewrite to_MsgSize_t_add_l, list_inserts_app_l.
        f_equal; [f_equal; [f_equal; lia|lia]|].
        f_equal. unfold size in Hsz. lia.
      * unfold well_formed. cbn. unfold size. rewrite length_inserts.
        pose proof (to_MsgSize_t_range (msg_length m + sizeof (tv_type v))).
        fold (size (buffer m)). lia.
      * unfold size. rewrite length_inserts. fold (size (buffer m)). lia.
    + injection Hlog as Hlog _. congruence.
Qed.

(** A run of reads over a span that holds the bytes of the values. *)
Lemma get_all_reads (vs : list TypedValue) :
  Forall valid_value vs ->
  forall (m0 : NetworkMessage) (q : Z),
    0 <= q -> q + size (bytes_of vs) < 2 ^ 16 ->
    read_span (buffer m0) q (size (bytes_of vs)) = Some (bytes_of vs) ->
    (forall q' n, q <= q' -> q' + n <= q + size (bytes_of vs) ->
       canRead (set_position q' m0) n = true) ->
    get_all canRead (map tv_type vs) (set_position q m0) =
      Done vs (set_position (q + size (bytes_of vs)) m0) [].
Proof.
  induction 1 as [|v vs [HT Hrep] Hvs IH]; intros m0 q Hq Hsmall Hspan Hread.
  - change (size (bytes_of [])) with 0. now rewrite Z.add_0_r.
  - rewrite bytes_of_cons in *.
    pose proof (to_bytes_size (tv_value v)) as Hsz.
    fold (size (to_bytes (tv_type v) (tv_value v))) in Hsz.
    pose proof (sizeof_nonneg (tv_type v)) as Hnn.
    pose proof (size_nonneg (bytes_of vs)) as Hnn'.
    apply read_span_app_inv in Hspan as [Hhead Htail].
    rewrite size_app, Hsz in *.
    cbn [map get_all]. unfold bind at 1.
    assert (get canRead (tv_type v) (set_position q m0) =
            Done (tv_value v) (set_position (q + sizeof (tv_type v)) m0) []) as Hget.
    { run. rewrite Hread by lia. simpl.
      change (msg_position (set_position q m0)) with q.
      rewrite Hhead. simpl.
      rewrite of_to_bytes by assumption.
      unfold to_MsgSize_t, wrap. rewrite Z.mod_small by lia. reflexivity. }
    rewrite Hget. unfold bind, ret.
    rewrite IH; try assumption; try lia.
    + destruct v. simpl. do 2 f_equal. lia.
    + intros q' n Hq' Hn. apply Hread; lia.
Qed.

(** X4: when the cursor of a message is at the end of its payload, a run of
    [add<T>] calls none of which logged an error extends the payload by
    the object representations of the values, in order; the cursor is
    again at the end of the payload and the overrun flag is as before. *)
Theorem add_all_appends (vs : list TypedValue) (m m' : NetworkMessage)
    (written : list Z) log :
  Forall (fun v => TriviallyCopyable (tv_type v)) vs ->
  well_formed m ->
  size (buffer m) < 2 ^ 16 ->
  msg_position m = INITIAL_BUFFER_POSITION + msg_length m ->
  payload m = Some written ->
  add_all canAdd vs m = Done tt m' log ->
  log = replicate (length vs) TraceAdd ->
  payload m' = Some (written ++ bytes_of vs) /\
  msg_position m' = INITIAL_BUFFER_POSITION + msg_length m' /\
  msg_overrun m' = msg_overrun m.
Proof.
  intros HT Hwf Hsmall Hcursor Hpayload Hrun Hlog.
  unfold payload in *.
  pose proof (read_span_size _ _ _ _ Hpayload) as Hwritten.
  pose proof Hpayload as (_ & Hlen0 & Hin & _)%read_span_inv.
  pose proof (size_nonneg (bytes_of vs)) as Hnn.
  destruct (add_all_written vs HT m m' log Hwf ltac:(lia) Hrun Hlog) as [Hfits ->].
  unfold INITIAL_BUFFER_POSITION in *.
  cbn [msg_position msg_length msg_overrun info buffer
       NetworkMessageInfo.position NetworkMessageInfo.length
       NetworkMessageInfo.overrun].
  assert (to_MsgSize_t (msg_length m + size (bytes_of vs)) =
          msg_length m + size (bytes_of vs)) as Hl
      by (unfold to_MsgSize_t, wrap; apply Z.mod_small; lia).
  rewrite Hl. split; [|split; [lia|reflexivity]].
  apply read_span_split.
  - rewrite <- Hpayload. apply read_span_ext.
    + unfold size. now rewrite length_inserts.
    + intros i Hi. apply list_lookup_inserts_lt. lia.
  - replace (7 + msg_length m) with (msg_position m) by lia.
    apply read_inserts; lia.
Qed.

(** X5: the values written by a run of [add<T>] calls none of which logged
    an error are read back, in order, by the matching run of [get<T>]
    calls started where the first value was written, provided [canRead]
    accepts the reads inside the written span; the run of reads ends with
    the cursor where the run of writes left it. *)
Theorem add_all_get_all_roundtrip (vs : list TypedValue) (m m' : NetworkMessage) log :
  Forall valid_value vs ->
  well_formed m ->
  msg_position m <= size (buffer m) < 2 ^ 16 ->
  add_all canAdd vs m = Done tt m' log ->
  log = replicate (length vs) TraceAdd ->
  (forall q n, msg_position m <= q -> q + n <= msg_position m' ->
     canRead (set_position q m') n = true) ->
  get_all canRead (map tv_type vs) (set_position (msg_position m) m') = Done vs m' [].
Proof.
  intros Hvalid Hwf Hsmall Hrun Hlog Hread.
  assert (Forall (fun v => TriviallyCopyable (tv_type v)) vs) as HT
      by (eapply Forall_impl; [exact Hvalid|]; now intros v [? _]).
  destruct (add_all_written vs HT m m' log Hwf Hsmall Hrun Hlog) as [Hfits Hm'].
  pose proof Hwf as (Hlen & Hpos & Hsize).
  assert (msg_position m' = msg_position m + size (bytes_of vs)) as Hpos'
      by (rewrite Hm'; reflexivity).
  rewrite get_all_reads; try assumption; try lia.
  - f_equal. rewrite <- Hpos'. rewrite Hm'. reflexivity.
  - rewrite Hm'. cbn [buffer]. apply read_inserts; lia.
  - intros q' n Hq' Hn. apply Hread; lia.
Qed.

(** ** Frames built backwards *)

(** Bytes stored right below a span are read in front of it. *)
Lemma read_span_prepend (buf bytes f : list Z) (start len : Z) :
  read_span buf start len = Some f ->
  size bytes <= start ->
  read_span (list_inserts (Z.to_nat (start - size bytes)) bytes buf)
    (start - size bytes) (size bytes + len) = Some (bytes ++ f).
Proof.
  intros Hf Hroom. pose proof Hf as (H0 & H1 & H2 & _)%read_span_inv.
  pose proof (size_nonneg bytes) as Hnn.
  apply read_span_split.
  - apply read_inserts; lia.
  - replace (start - size bytes + size bytes) with start by lia.
    rewrite <- Hf. apply read_span_ext.
    + unfold size. now rewrite length_inserts.
    + intros i Hi. apply list_lookup_inserts_ge. unfold size in *. lia.
Qed.

(** The frame after a header that fits. *)
Lemma add_header_frame (T : CType) `{!TriviallyCopyable T}
    (addHeader : carrier T) (om : OutputMessage) (f : list Z) :
  sizeof T <= outputBufferStart om < 2 ^ 16 ->
  frame om = Some f ->
  msg_length (base om) + sizeof T < 2 ^ 16 ->
  exists om',
    add_header T addHeader om = Done tt om' [] /\
    outputBufferStart om' = outputBufferStart om - sizeof T /\
    msg_length (base om') = msg_length (base om) + sizeof T /\
    frame om' = Some (to_bytes T addHeader ++ f).
Proof.
  intros Hroom Hframe Hlen. unfold frame in Hframe.
  pose proof Hframe as (H0 & H1 & H2 & _)%read_span_inv.
  pose proof (sizeof_nonneg T) as Hnn.
  pose proof (to_bytes_size addHeader) as Hsz.
  fold (size (to_bytes T addHeader)) in Hsz.
  eexists. split; [apply add_header_fits; [assumption|lia|lia]|].
  unfold frame.
  cbn [base buffer outputBufferStart info msg_length NetworkMessageInfo.length].
  assert (to_MsgSize_t (msg_length (base om) + sizeof T) =
          msg_length (base om) + sizeof T) as Hl
      by (unfold to_MsgSize_t, wrap; apply Z.mod_small; lia).
  unfold msg_length in *. rewrite Hl.
  split; [reflexivity|]. split; [reflexivity|].
  rewrite <- Hsz, (Z.add_comm _ (size _)).
  apply read_span_prepend; [assumption|lia].
Qed.

(** X6: a header that fits in what is left of the reserved prefix is put in
    front of the frame: afterwards the frame is the bytes of the header
    followed by the frame as it was, the frame cursor is [sizeof(T)] lower,
    the length [sizeof(T)] higher, and the read/write cursor and every
    byte from the old frame cursor on are as before. *)
Theorem add_header_prepends (T : CType) `{!TriviallyCopyable T}
    (addHeader : carrier T) (om : OutputMessage) (f : list Z) :
  sizeof T <= outputBufferStart om < 2 ^ 16 ->
  frame om = Some f ->
  msg_length (base om) + sizeof T < 2 ^ 16 ->
  exists om',
    add_header T addHeader om = Done tt om' [] /\
    frame om' = Some (to_bytes T addHeader ++ f) /\
    outputBufferStart om' = outputBufferStart om - sizeof T /\
    msg_length (base om') = msg_length (base om) + sizeof T /\
    msg_position (base om') = msg_position (base om) /\
    forall i : nat, outputBufferStart om <= Z.of_nat i ->
      buffer (base om') !! i = buffer (base om) !! i.
Proof.
  intros Hroom Hframe Hlen.
  destruct (add_header_frame T addHeader om f Hroom Hframe Hlen)
    as (om' & Hrun & Hstart & Hlen' & Hframe').
  exists om'. repeat split; try assumption.
  - unfold frame in Hframe. apply read_span_inv in Hframe as (H0 & H1 & H2 & _).
    rewrite add_header_fits in Hrun by (assumption || lia).
    injection Hrun as <-. reflexivity.
  - intros i Hi.
    unfold frame in Hframe. apply read_span_inv in Hframe as (H0 & H1 & H2 & _).
    rewrite add_header_fits in Hrun by (assumption || lia).
    injection Hrun as <-.
    cbn [base buffer]. apply list_lookup_inserts_ge.
    pose proof (to_bytes_size addHeader). lia.
Qed.

Lemma blockCount_with_checksum (k : Z) :
  0 <= k -> 8 * k + 4 < 2 ^ 16 -> blockCount (8 * k + 4) = k.
Proof.
  intros Hk Hsmall. rewrite blockCount_value by lia.
  replace (8 * k + 4 - 4) with (k * 8) by lia. apply Z.quot_mul. lia.
Qed.

Lemma blockCount_without_checksum (k : Z) :
  1 <= k -> 8 * k < 2 ^ 16 -> blockCount (8 * k) = k - 1.
Proof.
  intros Hk Hsmall. rewrite blockCount_value by lia.
  replace (8 * k - 4) with (4 + (k - 1) * 8) by lia.
  rewrite Z.quot_add by lia. reflexivity.
Qed.

Lemma padded_length (L : Z) :
  0 <= L -> L + paddingAmount L + 1 = 8 * (L / 8 + 1).
Proof.
  intros HL. rewrite paddingAmount_value by assumption.
  pose proof (Z.div_mod L 8). lia.
Qed.

(** X7: finalizing a message whose reserved prefix is untouched. With
    [body] the payload of [L] bytes and [fill] the filler bytes that
    [addPaddingBytes] appended, [writePaddingAmount] followed by
    [addCryptoHeader] leaves the frame: block count, checksum (only with
    [addChecksum]), padding count, [body], [fill]. Count byte, payload and
    filler are [L / 8 + 1] blocks of 8 bytes. The block count stored is
    that number when a checksum is added and one less when none is; the
    frame cursor ends at 0 with a checksum and at 4 without. *)
Theorem finalize_frame (addChecksum : bool) (checksum : Z) (om : OutputMessage)
    (m1 : NetworkMessage) log1 (body fill : list Z) :
  outputBufferStart om = INITIAL_BUFFER_POSITION ->
  payload (base om) = Some body ->
  addPaddingBytes (paddingAmount (msg_length (base om))) (base om) = Done tt m1 log1 ->
  msg_length m1 = msg_length (base om) + paddingAmount (msg_length (base om)) ->
  payload m1 = Some (body ++ fill) ->
  msg_length (base om) + 14 < 2 ^ 16 ->
  exists om1 om2,
    writePaddingAmount addPaddingBytes om = Done tt om1 log1 /\
    addCryptoHeader addChecksum checksum om1 = Done tt om2 [] /\
    outputBufferStart om2 = (if addChecksum then 0 else 4) /\
    size (body ++ fill) + 1 = 8 * (msg_length (base om) / 8 + 1) /\
    frame om2 =
      Some (to_bytes uint16_t
              (msg_length (base om) / 8 + (if addChecksum then 1 else 0)) ++
            (if addChecksum then to_bytes uint32_t checksum else []) ++
            to_bytes uint8_t (paddingAmount (msg_length (base om))) ++
            body ++ fill).
Proof.
  intros Hstart Hbody Hpad Hlen1 Hpay Hsmall.
  unfold INITIAL_BUFFER_POSITION in Hstart.
  pose proof Hbody as (_ & HL & _ & _)%read_span_inv.
  set (L := msg_length (base om)) in *.
  pose proof (padded_length L HL) as Hk.
  pose proof (Z.div_pos L 8 HL ltac:(lia)) as Hdiv.
  assert (0 <= paddingAmount L <= 7) as Hrange
      by (rewrite paddingAmount_value by assumption;
          pose proof (Z.mod_pos_bound L 8); lia).
  pose proof (read_span_size _ _ _ _ Hpay) as Hsz. rewrite Hlen1 in Hsz.
  destruct (add_header_frame uint8_t (paddingAmount L) (set_base m1 om) (body ++ fill))
    as (om1 & Hrun1 & Hstart1 & Hlen1' & Hframe1).
  { cbn. rewrite Hstart. lia. }
  { unfold frame. cbn [set_base base outputBufferStart]. rewrite Hstart. exact Hpay. }
  { cbn [set_base base]. rewrite Hlen1. change (sizeof uint8_t) with 1. lia. }
  cbn [set_base base outputBufferStart] in Hstart1, Hlen1'.
  change (sizeof uint8_t) with 1 in *. rewrite Hstart in Hstart1. rewrite Hlen1 in Hlen1'.
  exists om1.
  assert (writePaddingAmount addPaddingBytes om = Done tt om1 log1) as Hwrite.
  { unfold writePaddingAmount, bind, gets, inherited, zoom. fold L.
    rewrite Hpad, Hrun1. now rewrite app_nil_r. }
  destruct addChecksum.
  - destruct (add_header_frame uint32_t checksum om1 _ ltac:(cbn; lia) Hframe1)
      as (om1' & Hrun2 & Hstart2 & Hlen2 & Hframe2).
    { change (sizeof uint32_t) with 4. lia. }
    change (sizeof uint32_t) with 4 in *.
    destruct (add_header_frame uint16_t (blockCount (msg_length (base om1'))) om1' _
                ltac:(cbn; lia) Hframe2)
      as (om2 & Hrun3 & Hstart3 & Hlen3 & Hframe3).
    { change (sizeof uint16_t) with 2. lia. }
    change (sizeof uint16_t) with 2 in *.
    exists om2. split; [exact Hwrite|]. split; [|split; [lia|split; [lia|]]].
    + unfold addCryptoHeader, writeMessageLength, bind at 1. rewrite Hrun2.
      unfold bind, gets. rewrite Hrun3. reflexivity.
    + rewrite Hframe3. do 3 f_equal.
      rewrite Hlen2, Hlen1'.
      replace (L + paddingAmount L + 1 + 4) with (8 * (L / 8 + 1) + 4) by lia.
      apply blockCount_with_checksum; lia.
  - destruct (add_header_frame uint16_t (blockCount (msg_length (base om1))) om1 _
                ltac:(cbn; lia) Hframe1)
      as (om2 & Hrun3 & Hstart3 & Hlen3 & Hframe3).
    { change (sizeof uint16_t) with 2. lia. }
    change (sizeof uint16_t) with 2 in *.
    exists om2. split; [exact Hwrite|]. split; [|split; [lia|split; [lia|]]].
    + unfold addCryptoHeader, writeMessageLength, bind at 1, ret.
      unfold bind, gets. rewrite Hrun3. reflexivity.
    + rewrite Hframe3. do 3 f_equal.
      rewrite Hlen1'.
      replace (L + paddingAmount L + 1) with (8 * (L / 8 + 1)) by lia.
      rewrite blockCount_without_checksum by lia. lia.
Qed.

(** ** Appending and recycling *)

Lemma append_fits (B : NetworkMessage) (A : OutputMessage) (bytes : list Z) :
  payload B = Some bytes ->
  0 <= msg_position (base A) ->
  msg_position (base A) + msg_length B <= size (buffer (base A)) ->
  append B A =
    Done tt
      {| base :=
           {| info := {| NetworkMessageInfo.length :=
                           to_MsgSize_t (msg_length (base A) + msg_length B);
                         NetworkMessageInfo.position :=
                           to_MsgSize_t (msg_position (base A) + msg_length B);
                         NetworkMessageInfo.overrun := msg_overrun (base A) |};
              buffer := list_inserts (Z.to_nat (msg_position (base A))) bytes
                          (buffer (base A)) |};
         outputBufferStart := outputBufferStart A |}
      [].
Proof.
  intros Hpayload Hpos Hfit. unfold payload in Hpayload.
  pose proof (read_span_size _ _ _ _ Hpayload) as Hsz.
  unfold append, getLength, getBuffer. rewrite Hpayload.
  unfold bind at 1 2. unfold gets at 1 2.
  rewrite copy_span_Some by lia. run. reflexivity.
Qed.

(** X10: when the cursor of [A] is at the end of its payload and the payload
    of [B] fits behind it, [A.append(B)] makes the payload of [A] the two
    payloads one after the other, and the cursor is again at the end of
    the payload: appends can follow one another. *)
Theorem append_extends_payload (B : NetworkMessage) (A : OutputMessage) (a b : list Z) :
  well_formed (base A) ->
  size (buffer (base A)) < 2 ^ 16 ->
  msg_position (base A) = INITIAL_BUFFER_POSITION + msg_length (base A) ->
  payload (base A) = Some a ->
  payload B = Some b ->
  msg_position (base A) + msg_length B <= size (buffer (base A)) ->
  exists A',
    append B A = Done tt A' [] /\
    payload (base A') = Some (a ++ b) /\
    msg_position (base A') = INITIAL_BUFFER_POSITION + msg_length (base A') /\
    msg_length (base A') = msg_length (base A) + msg_length B /\
    outputBufferStart A' = outputBufferStart A.
Proof.
  intros (Hlen & Hpos & Hsize) Hsmall Hcursor Ha Hb Hfit.
  pose proof (read_span_size _ _ _ _ Hb) as Hbsz.
  pose proof Hb as (_ & HB & _ & _)%read_span_inv.
  unfold INITIAL_BUFFER_POSITION in *.
  eexists. split; [apply (append_fits B A b); assumption || lia|].
  unfold payload.
  cbn [base buffer info outputBufferStart msg_length msg_position
       NetworkMessageInfo.length NetworkMessageInfo.position].
  unfold msg_length, msg_position in *.
  assert (forall z, 0 <= z < 2 ^ 16 -> to_MsgSize_t z = z) as Hwrap
      by (intros; unfold to_MsgSize_t, wrap; now apply Z.mod_small).
  rewrite !Hwrap by lia.
  split; [|split; [lia|split; reflexivity]].
  unfold INITIAL_BUFFER_POSITION.
  apply read_span_split.
  - rewrite <- Ha. apply read_span_ext.
    + unfold size. now rewrite length_inserts.
    + intros i Hi. unfold INITIAL_BUFFER_POSITION, msg_length in Hi.
      apply list_lookup_inserts_lt. lia.
  - rewrite <- Hcursor. apply read_inserts; lia.
Qed.

(** X11: appending a message with an empty payload changes nothing in the
    message appended to. *)
Theorem append_empty (B : NetworkMessage) (A : OutputMessage) :
  well_formed (base A) ->
  msg_position (base A) <= size (buffer (base A)) ->
  msg_length B = 0 ->
  INITIAL_BUFFER_POSITION <= size (buffer B) ->
  append B A = Done tt A [].
Proof.
  intros (Hlen & Hpos & Hsize) Hin HB Hprefix.
  unfold INITIAL_BUFFER_POSITION in *.
  rewrite (append_fits B A []).
  - rewrite HB, !Z.add_0_r. unfold to_MsgSize_t, wrap.
    rewrite !Z.mod_small by assumption.
    destruct A as [[[l p o] b] start]. reflexivity.
  - unfold payload, INITIAL_BUFFER_POSITION. rewrite HB.
    rewrite read_span_Some by lia. reflexivity.
  - lia.
  - lia.
Qed.

(** X12: [reset] on an [OutputMessage] is the one of [NetworkMessage]: it
    puts length and read/write cursor back but not the frame cursor, so
    the part of the reserved prefix used by earlier headers stays used.
    After a reset, a header for which the prefix had no room before is
    still rejected; in particular a message finalized with checksum
    (frame cursor 0) takes no length header after it was reset. *)
Theorem reset_keeps_header_cursor (om : OutputMessage) :
  exists om',
    inherited reset om = Done tt om' [] /\
    outputBufferStart om' = outputBufferStart om /\
    msg_length (base om') = 0 /\
    msg_position (base om') = INITIAL_BUFFER_POSITION /\
    buffer (base om') = buffer (base om) /\
    (forall (T : CType) (addHeader : carrier T),
       outputBufferStart om < sizeof T ->
       add_header T addHeader om' = Done tt om' [ErrorHeaderSpace]) /\
    (outputBufferStart om < 2 ->
     writeMessageLength om' = Done tt om' [ErrorHeaderSpace]).
Proof.
  eexists. split; [reflexivity|].
  cbn [set_base base outputBufferStart buffer info msg_length msg_position
       NetworkMessageInfo.length NetworkMessageInfo.position
       NetworkMessageInfo.default].
  repeat split.
  - intros T addHeader Hlt. now apply add_header_rejected.
  - intros Hlt. unfold writeMessageLength, bind, gets.
    rewrite add_header_rejected by (simpl; lia). reflexivity.
Qed.

End MoreCodecProperties.

(** ** Edges of the framing arithmetic *)

(** X8: the padding amount is between 0 and 7, never 8: a payload whose
    length is already a multiple of 8 gets seven filler bytes, so that with
    the count byte a whole block is added, and a payload one byte short of
    a multiple of 8 gets none. *)
Theorem paddingAmount_range (L : Z) :
  0 <= L ->
  0 <= paddingAmount L <= 7 /\
  (L mod 8 = 0 -> paddingAmount L = 7) /\
  (L mod 8 = 7 -> paddingAmount L = 0).
Proof.
  intros HL. rewrite paddingAmount_value by assumption.
  pose proof (Z.mod_pos_bound L 8). lia.
Qed.

(** X9: the block count written by [writeMessageLength] does not wrap
    around for short messages: the subtraction is done on [int] and the
    division truncates towards zero, so a length below 4 gives 0, not a
    huge count; from 4 on it is [(length - 4) / 8] rounded down, at most
    8191. *)
Theorem blockCount_no_underflow (L : Z) :
  0 <= L < 2 ^ 16 ->
  blockCount L = (if L <? 4 then 0 else (L - 4) / 8) /\
  0 <= blockCount L <= 8191.
Proof.
  intros HL. rewrite blockCount_value by assumption.
  change (2 ^ 16) with 65536 in HL.
  destruct (Z.ltb_spec L 4) as [Hlt|Hge].
  - split; [|Z.quot_rem_to_equations; lia].
    Z.quot_rem_to_equations. lia.
  - rewrite Z.quot_div_nonneg by lia.
    split; [reflexivity|]. Z.div_mod_to_equations. lia.
Qed.

(** * The further properties at concrete inputs *)

Lemma PropStream_read_spec_witness :
  stream_ok cut_string_stream /\
  (exists s',
     PropStream.read uint16_t 0 cut_string_stream = Done (true, 5) s' [] /\
     unread s' = [65; 66]) /\
  PropStream.read uint64_t 0 cut_string_stream = Done (false, 0) cut_string_stream [].
Proof.
  assert (stream_ok cut_string_stream) as Hok by (vm_compute; easy).
  split; [exact Hok|]. split.
  - destruct (PropStream_read_spec uint16_t 0 cut_string_stream Hok)
      as (r & s' & Hrun & _ & Hcase).
    vm_compute in Hcase. destruct Hcase as [-> Hun].
    exists s'. split; [exact Hrun|exact Hun].
  - destruct (PropStream_read_spec uint64_t 0 cut_string_stream Hok)
      as (r & s' & Hrun & _ & Hcase).
    vm_compute in Hcase. destruct Hcase as [-> ->]. exact Hrun.
Defined.

Lemma PropStream_skip_spec_witness :
  stream_ok cut_string_stream /\
  (exists s', PropStream.skip 2 cut_string_stream = Done true s' [] /\ unread s' = [65; 66]) /\
  PropStream.skip 5 cut_string_stream = Done false cut_string_stream [].
Proof.
  assert (stream_ok cut_string_stream) as Hok by (vm_compute; easy).
  split; [exact Hok|]. split.
  - destruct (PropStream_skip_spec 2 cut_string_stream Hok) as (r & s' & Hrun & _ & Hcase);
      [vm_compute; easy|].
    vm_compute in Hcase. destruct Hcase as [-> Hun].
    exists s'. split; [exact Hrun|exact Hun].
  - destruct (PropStream_skip_spec 5 cut_string_stream Hok) as (r & s' & Hrun & _ & Hcase);
      [vm_compute; easy|].
    vm_compute in Hcase. destruct Hcase as [-> ->]. exact Hrun.
Defined.

Lemma PropStream_readString_spec_witness :
  stream_ok cut_string_stream /\
  Forall is_byte (PropStream.memory cut_string_stream) /\
  exists s',
    PropStream.readString [] cut_string_stream = Done (false, []) s' [] /\
    unread s' = [65; 66].
Proof.
  assert (stream_ok cut_string_stream) as Hok by (vm_compute; easy).
  assert (Forall is_byte (PropStream.memory cut_string_stream)) as Hbytes
      by (repeat constructor; vm_compute; easy).
  split; [exact Hok|]. split; [exact Hbytes|].
  destruct (PropStream_readString_spec [] cut_string_stream Hok Hbytes)
    as (r & s' & Hrun & _ & _ & Hcase).
  specialize (Hcase 5 [65; 66]). vm_compute in Hcase.
  destruct Hcase as [-> Hun]; [easy|reflexivity|].
  exists s'. split; [exact Hrun|exact Hun].
Defined.

Lemma write_all_read_all_roundtrip_witness :
  Forall valid_value sample_values /\
  exists w s s',
    write_all sample_values PropWriteStream.default = Done tt w [] /\
    PropWriteStream.buffer w = [0xAB; 0x02; 0x01; 0xFE; 0xFF; 0xFF; 0xFF] /\
    PropStream.init (fst (PropWriteStream.getStream w))
      (snd (PropWriteStream.getStream w)) PropStream.default = Done tt s [] /\
    read_all [uint8_t; uint16_t; int32_t] s = Done (true, sample_values) s' [] /\
    PropStream.size s' = 0.
Proof.
  assert (Forall valid_value sample_values) as Hvalid.
  { repeat (constructor; [split; [apply _|vm_compute; easy]|]).
    constructor. }
  split; [exact Hvalid|].
  destruct (write_all_read_all_roundtrip sample_values Hvalid)
    as (w & s & s' & Hwrite & Hinit & Hread & Hsize); [vm_compute; easy|].
  exists w, s, s'. split; [exact Hwrite|].
  split; [|split; [exact Hinit|split; [exact Hread|exact Hsize]]].
  vm_compute in Hwrite. injection Hwrite as <-. reflexivity.
Defined.

Lemma get_moves_only_cursor_witness :
  get canRead_spec uint16_t used_message = Done 0 (set_position 11 used_message) [] /\
  buffer (set_position 11 used_message) = buffer used_message /\
  msg_overrun (set_position 11 used_message) = msg_overrun used_message.
Proof.
  assert (get canRead_spec uint16_t used_message =
          Done 0 (set_position 11 used_message) []) as Hrun by reflexivity.
  split; [exact Hrun|].
  destruct (get_moves_only_cursor canRead_spec uint16_t used_message
              (set_position 11 used_message) 0 [] Hrun)
    as (_ & Hbuffer & _ & Hflag & _).
  split; [exact Hbuffer|exact Hflag].
Defined.

Lemma get_out_of_range_witness :
  well_formed edge_message /\
  get accept_all uint16_t edge_message = Undefined.
Proof.
  assert (well_formed edge_message) as Hwf by (vm_compute; easy).
  split; [exact Hwf|].
  apply (get_out_of_range accept_all uint16_t edge_message Hwf).
  split; [reflexivity|vm_compute; reflexivity].
Defined.

Lemma add_never_out_of_range_witness :
  well_formed edge_message /\
  exists m' log,
    add accept_all uint16_t 0x0102 edge_message = Done tt m' log /\
    m' = edge_message /\
    size (buffer m') = 16.
Proof.
  assert (well_formed edge_message) as Hwf by (vm_compute; easy).
  split; [exact Hwf|].
  destruct (add_never_out_of_range accept_all uint16_t 0x0102 edge_message Hwf)
    as (m' & log & Hrun & Hsize & _).
  exists m', log. split; [exact Hrun|]. split; [|exact Hsize].
  vm_compute in Hrun. injection Hrun as <- _. reflexivity.
Defined.

Lemma add_all_appends_witness :
  payload (NetworkMessage_new 32) = Some [] /\
  exists m',
    add_all canAdd_spec sample_values (NetworkMessage_new 32) =
      Done tt m' [TraceAdd; TraceAdd; TraceAdd] /\
    payload m' = Some [0xAB; 0x02; 0x01; 0xFE; 0xFF; 0xFF; 0xFF] /\
    msg_position m' = 14.
Proof.
  split; [reflexivity|].
  assert (exists m', add_all canAdd_spec sample_values (NetworkMessage_new 32) =
                       Done tt m' [TraceAdd; TraceAdd; TraceAdd]) as (m' & Hrun)
      by (eexists; vm_compute; reflexivity).
  exists m'. split; [exact Hrun|].
  destruct (add_all_appends canAdd_spec sample_values (NetworkMessage_new 32) m' []
              [TraceAdd; TraceAdd; TraceAdd])
    as (Hpayload & Hcursor & _);
    [repeat (constructor; [apply _|]); constructor
    |vm_compute; easy|vm_compute; easy
    |reflexivity|reflexivity|exact Hrun|reflexivity|].
  split; [exact Hpayload|].
  vm_compute in Hrun. injection Hrun as <-. reflexivity.
Defined.

Lemma add_all_get_all_roundtrip_witness :
  exists m',
    add_all canAdd_spec sample_values (NetworkMessage_new 32) =
      Done tt m' [TraceAdd; TraceAdd; TraceAdd] /\
    get_all canRead_spec [uint8_t; uint16_t; int32_t] (set_position 7 m') =
      Done sample_values m' [].
Proof.
  assert (exists m', add_all canAdd_spec sample_values (NetworkMessage_new 32) =
                       Done tt m' [TraceAdd; TraceAdd; TraceAdd]) as (m' & Hrun)
      by (eexists; vm_compute; reflexivity).
  exists m'. split; [exact Hrun|].
  apply (add_all_get_all_roundtrip canRead_spec canAdd_spec sample_values
           (NetworkMessage_new 32) m' [TraceAdd; TraceAdd; TraceAdd]).
  - repeat (constructor; [split; [apply _|vm_compute; easy]|]).
    constructor.
  - vm_compute; easy.
  - vm_compute; easy.
  - exact Hrun.
  - reflexivity.
  - vm_compute in Hrun. injection Hrun as <-.
    intros q n Hq Hn. unfold canRead_spec. apply Z.leb_le.
    change (msg_position (NetworkMessage_new 32)) with 7 in Hq.
    cbn in Hn |- *. unfold size. cbn. lia.
Defined.

Lemma add_header_prepends_witness :
  frame ping_message = Some PING /\
  exists om',
    add_header uint8_t 3 ping_message = Done tt om' [] /\
    frame om' = Some (3 :: PING) /\
    outputBufferStart om' = 6.
Proof.
  split; [reflexivity|].
  destruct (add_header_prepends uint8_t 3 ping_message PING)
    as (om' & Hrun & Hframe & Hstart & _);
    [vm_compute; easy|reflexivity|vm_compute; easy|].
  exists om'. split; [exact Hrun|]. split; [exact Hframe|exact Hstart].
Defined.

Lemma finalize_frame_witness :
  addPaddingBytes_spec 51 3 (base ping_message) = Done tt padded_ping [] /\
  exists om1 om2,
    writePaddingAmount (addPaddingBytes_spec 51) ping_message = Done tt om1 [] /\
    addCryptoHeader true 0xDEADBEEF om1 = Done tt om2 [] /\
    outputBufferStart om2 = 0 /\
    frame om2 =
      Some ([1; 0] ++ [0xEF; 0xBE; 0xAD; 0xDE] ++ [3] ++ PING ++ [51; 51; 51]).
Proof.
  split; [reflexivity|].
  destruct (finalize_frame (addPaddingBytes_spec 51) true 0xDEADBEEF ping_message
              padded_ping [] PING [51; 51; 51])
    as (om1 & om2 & Hpad & Hcrypto & Hstart & _ & Hframe);
    [reflexivity|reflexivity|reflexivity|reflexivity|reflexivity|vm_compute; easy|].
  exists om1, om2. split; [exact Hpad|]. split; [exact Hcrypto|].
  split; [exact Hstart|exact Hframe].
Defined.

Lemma append_extends_payload_witness :
  payload (base ping_message) = Some PING /\
  exists A',
    append (base ping_message) ping_message = Done tt A' [] /\
    payload (base A') = Some (PING ++ PING) /\
    msg_position (base A') = 15.
Proof.
  split; [reflexivity|].
  destruct (append_extends_payload (base ping_message) ping_message PING PING)
    as (A' & Hrun & Hpayload & Hcursor & Hlen & _);
    [vm_compute; easy|vm_compute; easy|reflexivity|reflexivity|reflexivity
    |vm_compute; easy|].
  exists A'. split; [exact Hrun|]. split; [exact Hpayload|].
  rewrite Hcursor, Hlen. reflexivity.
Defined.

Lemma append_empty_witness :
  msg_length (NetworkMessage_new 16) = 0 /\
  append (NetworkMessage_new 16) ping_message = Done tt ping_message [].
Proof.
  split; [reflexivity|].
  apply (append_empty (NetworkMessage_new 16) ping_message);
    [vm_compute; easy|vm_compute; easy|reflexivity|vm_compute; easy].
Defined.

Lemma paddingAmount_range_witness :
  0 <= paddingAmount 16 <= 7 /\ paddingAmount 16 = 7 /\ paddingAmount 15 = 0.
Proof.
  destruct (paddingAmount_range 16) as (Hrange & Hfull & _); [vm_compute; easy|].
  destruct (paddingAmount_range 15) as (_ & _ & Hnone); [vm_compute; easy|].
  split; [exact Hrange|]. split; [apply Hfull; reflexivity|apply Hnone; reflexivity].
Defined.

Lemma blockCount_no_underflow_witness :
  blockCount 3 = 0 /\ 0 <= blockCount 3 <= 8191.
Proof.
  apply (blockCount_no_underflow 3). vm_compute; easy.
Defined.
